(** * hass-tui: the Home Assistant WebSocket client

    A shallow embedding of [src/hass_tui/websocket_client.py] and the
    properties of its request/response correlation, subscription delivery,
    handshake and teardown.

    The client is a single-threaded asyncio program: control only changes
    hands at an [await].  Each stretch of code between two suspension points
    is embedded as one function on the client's state, and the environment
    (what the transport delivers, whether a send succeeds, when a timer
    fires) is an explicit argument of those functions. *)

From stdpp Require Import base option list gmap strings.
From Stdlib Require Import ZArith Lia.

Set Warnings "-register-all".
Local Open Scope Z_scope.

(** ** JSON values, as [json.loads] produces them *)

(** A Python [float].  Only two things are ever asked of one here: whether it
    is truthy and whether it equals an [int] dictionary key.  Both are decided
    by whether the float is integer-valued, so that is what is recorded. *)
Inductive pyfloat :=
| FloatIntegral (z : Z)        (* 2.0, -0.0, 1e3 ... : equal to the int [z] *)
| FloatOther (literal : string). (* 0.5, NaN, Infinity ... : equal to no int *)

Inductive json :=
| JNull
| JBool (b : bool)
| JInt (z : Z)
| JFloat (f : pyfloat)
| JStr (s : string)
| JArr (items : list json)
| JObj (fields : list (string * json)).

(** ** Exceptions *)

(** The source raises the bare [Exception] class with a message; the
    constructors below name the messages.  [CancelledError] is the only one
    that is not a subclass of [Exception]. *)
Inductive exn :=
| JSONDecodeError (doc : string)      (* json.loads on malformed text *)
| AttributeError                      (* [.get] on something that is no dict *)
| TypeError                           (* unhashable value used as a dict key *)
| InvalidStateError                   (* set_result / set_exception on a done future *)
| TransportError (why : string)       (* raised by the websockets library *)
| NotConnected                        (* Exception("Not connected") *)
| CommandTimeout (command_type : string) (* Exception(f"Command {command_type} timed out") *)
| ServiceError (error : json)         (* Exception(data.get("error")) *)
| UnexpectedHandshake (got : json)    (* Exception(f"Expected auth_required, got: ...") *)
| AuthenticationFailed (got : json)   (* Exception(f"Authentication failed: ...") *)
| CallbackError (what : string)       (* whatever a user callback raises *)
| CancelledError.

Definition is_exception (e : exn) : bool :=
  match e with
  | CancelledError => false
  | _ => true
  end.

(** The outcome of running a piece of Python. *)
Inductive py (A : Type) :=
| Return (a : A)
| Raise (e : exn).
Arguments Return {A} a.
Arguments Raise {A} e.

(** ** Dictionaries and truth values *)

Fixpoint assoc (k : string) (d : list (string * json)) : option json :=
  match d with
  | [] => None
  | (k', v) :: rest => if String.eqb k k' then Some v else assoc k rest
  end.

(** [data.get(k)]: [None] for a missing key, [AttributeError] when [data] is
    not a dict. *)
Definition get (data : json) (k : string) : py json :=
  match data with
  | JObj d => Return (default JNull (assoc k d))
  | _ => Raise AttributeError
  end.

(** [d[k] = v] on a dict literal under construction. *)
Fixpoint setitem (k : string) (v : json) (d : list (string * json))
  : list (string * json) :=
  match d with
  | [] => [(k, v)]
  | (k', v') :: rest =>
      if String.eqb k k' then (k, v) :: rest else (k', v') :: setitem k v rest
  end.

(** [{**base, **kwargs}] *)
Definition dict_merge (base kwargs : list (string * json)) : list (string * json) :=
  fold_left (fun d kv => setitem (fst kv) (snd kv) d) kwargs base.

(** [bool(v)] *)
Definition truthy (v : json) : bool :=
  match v with
  | JNull => false
  | JBool b => b
  | JInt z => negb (z =? 0)
  | JFloat (FloatIntegral z) => negb (z =? 0)
  | JFloat (FloatOther _) => true
  | JStr s => negb (String.eqb s "")
  | JArr [] => false
  | JArr (_ :: _) => true
  | JObj [] => false
  | JObj (_ :: _) => true
  end.

(** [v == "literal"] *)
Definition str_eq (v : json) (literal : string) : bool :=
  match v with
  | JStr s => String.eqb s literal
  | _ => false
  end.

(** What a JSON value hashes and compares as, when looked up in a dict whose
    keys are all [int]s: [True == 1], [2.0 == 2], strings and [None] match
    nothing, lists and dicts are unhashable. *)
Definition int_key (v : json) : py (option Z) :=
  match v with
  | JInt z => Return (Some z)
  | JBool b => Return (Some (if b then 1 else 0))
  | JFloat (FloatIntegral z) => Return (Some z)
  | JFloat (FloatOther _) => Return None
  | JStr _ => Return None
  | JNull => Return None
  | JArr _ => Raise TypeError
  | JObj _ => Raise TypeError
  end.

(** ** Frames *)

(** A text frame is represented by what [json.loads] makes of it. *)
Inductive frame :=
| BadJson (raw : string)
| Json (data : json).

Definition json_loads (message : frame) : py json :=
  match message with
  | BadJson raw => Raise (JSONDecodeError raw)
  | Json data => Return data
  end.

(** ** Futures, callbacks, logging *)

Inductive Future :=
| Pending
| Result (v : json)
| Failed (e : exn)
| Cancelled.

Definition done (f : Future) : bool :=
  match f with
  | Pending => false
  | _ => true
  end.

(** User code: returns, or raises. *)
Definition Callable := json -> py unit.

Inductive level := DEBUG | INFO | WARNING | ERROR.

Inductive log_record :=
| LogConnecting
| LogEstablished
| LogAuthChallenge
| LogAuthSuccessful
| LogConnectionFailed (e : exn)
| LogReceived (data : json)
| LogUnhandled (msg_type : json)
| LogLoopCancelled
| LogLoopError (e : exn)
| LogCallbackError (e : exn)
| LogSending (message : json)
| LogSubscribed (event_type : option string) (subscription_id : Z)
| LogClosing
| LogClosed.

Definition levelno (r : log_record) : level :=
  match r with
  | LogReceived _ | LogSending _ => DEBUG
  | LogUnhandled _ => WARNING
  | LogConnectionFailed _ | LogLoopError _ | LogCallbackError _ => ERROR
  | _ => INFO
  end.

(** ** The client object *)

Inductive ConnectionState :=
| DISCONNECTED
| CONNECTING
| AUTHENTICATING
| CONNECTED
| RECONNECTING.

#[global] Instance ConnectionState_eq_dec : EqDecision ConnectionState.
Proof. solve_decision. Defined.

Inductive socket := Socket (url : string).

Inductive task := Running | Finished.

(** The attributes of [HomeAssistantWebSocket], followed by the part of the
    runtime the methods act on: the futures they create (a future is referred
    to by its index), the callback tasks handed to [asyncio.create_task] and
    not yet run, the frames written to the socket, and the log. *)
Record client := Client {
  url : string;
  token : string;
  state : ConnectionState;
  _websocket : option socket;
  _message_id : Z;
  _pending_requests : gmap Z nat;
  _event_callbacks : gmap Z Callable;
  _receive_task : option task;
  futures : list Future;
  spawned : list (Callable * json);
  outbox : list json;
  log : list log_record
}.

Definition __init__ (url token : string) : client :=
  {| url := url; token := token;
     state := DISCONNECTED;
     _websocket := None;
     _message_id := 0;
     _pending_requests := ∅;
     _event_callbacks := ∅;
     _receive_task := None;
     futures := []; spawned := []; outbox := []; log := [] |}.

(** Attribute assignment. *)
Definition set_state (v : ConnectionState) (s : client) : client :=
  {| url := url s; token := token s; state := v; _websocket := _websocket s;
     _message_id := _message_id s; _pending_requests := _pending_requests s;
     _event_callbacks := _event_callbacks s; _receive_task := _receive_task s;
     futures := futures s; spawned := spawned s; outbox := outbox s; log := log s |}.

Definition set_websocket (v : option socket) (s : client) : client :=
  {| url := url s; token := token s; state := state s; _websocket := v;
     _message_id := _message_id s; _pending_requests := _pending_requests s;
     _event_callbacks := _event_callbacks s; _receive_task := _receive_task s;
     futures := futures s; spawned := spawned s; outbox := outbox s; log := log s |}.

Definition set_message_id (v : Z) (s : client) : client :=
  {| url := url s; token := token s; state := state s; _websocket := _websocket s;
     _message_id := v; _pending_requests := _pending_requests s;
     _event_callbacks := _event_callbacks s; _receive_task := _receive_task s;
     futures := futures s; spawned := spawned s; outbox := outbox s; log := log s |}.

Definition set_pending_requests (v : gmap Z nat) (s : client) : client :=
  {| url := url s; token := token s; state := state s; _websocket := _websocket s;
     _message_id := _message_id s; _pending_requests := v;
     _event_callbacks := _event_callbacks s; _receive_task := _receive_task s;
     futures := futures s; spawned := spawned s; outbox := outbox s; log := log s |}.

Definition set_event_callbacks (v : gmap Z Callable) (s : client) : client :=
  {| url := url s; token := token s; state := state s; _websocket := _websocket s;
     _message_id := _message_id s; _pending_requests := _pending_requests s;
     _event_callbacks := v; _receive_task := _receive_task s;
     futures := futures s; spawned := spawned s; outbox := outbox s; log := log s |}.

Definition set_receive_task (v : option task) (s : client) : client :=
  {| url := url s; token := token s; state := state s; _websocket := _websocket s;
     _message_id := _message_id s; _pending_requests := _pending_requests s;
     _event_callbacks := _event_callbacks s; _receive_task := v;
     futures := futures s; spawned := spawned s; outbox := outbox s; log := log s |}.

Definition set_futures (v : list Future) (s : client) : client :=
  {| url := url s; token := token s; state := state s; _websocket := _websocket s;
     _message_id := _message_id s; _pending_requests := _pending_requests s;
     _event_callbacks := _event_callbacks s; _receive_task := _receive_task s;
     futures := v; spawned := spawned s; outbox := outbox s; log := log s |}.

Definition set_spawned (v : list (Callable * json)) (s : client) : client :=
  {| url := url s; token := token s; state := state s; _websocket := _websocket s;
     _message_id := _message_id s; _pending_requests := _pending_requests s;
     _event_callbacks := _event_callbacks s; _receive_task := _receive_task s;
     futures := futures s; spawned := v; outbox := outbox s; log := log s |}.

Definition set_outbox (v : list json) (s : client) : client :=
  {| url := url s; token := token s; state := state s; _websocket := _websocket s;
     _message_id := _message_id s; _pending_requests := _pending_requests s;
     _event_callbacks := _event_callbacks s; _receive_task := _receive_task s;
     futures := futures s; spawned := spawned s; outbox := v; log := log s |}.

Definition set_log (v : list log_record) (s : client) : client :=
  {| url := url s; token := token s; state := state s; _websocket := _websocket s;
     _message_id := _message_id s; _pending_requests := _pending_requests s;
     _event_callbacks := _event_callbacks s; _receive_task := _receive_task s;
     futures := futures s; spawned := spawned s; outbox := outbox s; log := v |}.

(** ** Methods run in a state-and-exception monad

    A mutation made before an exception is raised stays made. *)
Definition M (A : Type) : Type := client -> client * py A.

Definition ret {A} (a : A) : M A := fun s => (s, Return a).
Definition raise {A} (e : exn) : M A := fun s => (s, Raise e).
Definition lift {A} (r : py A) : M A := fun s => (s, r).
Definition gets {A} (f : client -> A) : M A := fun s => (s, Return (f s)).
Definition modify (f : client -> client) : M unit := fun s => (f s, Return tt).

Definition bind {A B} (m : M A) (k : A -> M B) : M B :=
  fun s =>
    match m s with
    | (s', Return a) => k a s'
    | (s', Raise e) => (s', Raise e)
    end.

(** [try: body / except Exception as e: handler e] *)
Definition try_except {A} (body : M A) (handler : exn -> M A) : M A :=
  fun s =>
    match body s with
    | (s', Return a) => (s', Return a)
    | (s', Raise e) => if is_exception e then handler e s' else (s', Raise e)
    end.

Declare Scope py_scope.
Delimit Scope py_scope with py_m.
Notation "x <- m ;; k" := (bind m (fun x => k))
  (at level 100, m at next level, right associativity) : py_scope.
Notation "m ;; k" := (bind m (fun _ => k))
  (at level 100, right associativity) : py_scope.
Local Open Scope py_scope.

Definition logger (r : log_record) : M unit :=
  modify (fun s => set_log (log s ++ [r]) s).

(** *** The runtime: futures, tasks, the socket *)

(** [asyncio.Future()] *)
Definition new_future : M nat :=
  fun s => (set_futures (futures s ++ [Pending]) s, Return (length (futures s))).

(** [future.set_result(v)] and [future.set_exception(e)] raise
    [InvalidStateError] when the future is already done. *)
Definition resolve (future : nat) (outcome : Future) : M unit :=
  fun s =>
    match futures s !! future with
    | Some Pending => (set_futures (<[future := outcome]> (futures s)) s, Return tt)
    | _ => (s, Raise InvalidStateError)
    end.

Definition set_result (future : nat) (v : json) : M unit := resolve future (Result v).
Definition set_exception (future : nat) (e : exn) : M unit := resolve future (Failed e).

(** [future.cancel()] does nothing to a future that is done. *)
Definition cancel_in (future : nat) (h : list Future) : list Future :=
  match h !! future with
  | Some Pending => <[future := Cancelled]> h
  | _ => h
  end.

Definition cancel (future : nat) : M unit :=
  modify (fun s => set_futures (cancel_in future (futures s)) s).

(** [asyncio.create_task(self._safe_callback(callback, data))] *)
Definition create_task (callback : Callable) (data : json) : M unit :=
  modify (fun s => set_spawned (spawned s ++ [(callback, data)]) s).

(** [await self._websocket.send(json.dumps(message))]; [tx] is what the
    transport answers. *)
Definition ws_send (message : json) (tx : py unit) : M unit :=
  fun s =>
    match _websocket s with
    | None => (s, Raise AttributeError)
    | Some _ =>
        match tx with
        | Return _ => (set_outbox (outbox s ++ [message]) s, Return tt)
        | Raise e => (s, Raise e)
        end
    end.

(** [key in d], returning the entry found. *)
Definition find {V} (d : gmap Z V) (key : json) : py (option (Z * V)) :=
  match int_key key with
  | Raise e => Raise e
  | Return None => Return None
  | Return (Some z) =>
      Return (match d !! z with Some v => Some (z, v) | None => None end)
  end.

(** ** The methods of [HomeAssistantWebSocket] *)

(** *** [connect]

    [dial] is the outcome of [websockets.connect], [recv1] and [recv2] of the
    two [recv] calls, [tx] of sending the credential. *)
Definition connect (dial : py unit) (recv1 : py frame) (tx : py unit)
    (recv2 : py frame) : M bool :=
  try_except
    (modify (set_state CONNECTING) ;;
     logger LogConnecting ;;
     lift dial ;;
     modify (fun s => set_websocket (Some (Socket (url s))) s) ;;
     logger LogEstablished ;;
     auth_required <- lift recv1 ;;
     auth_msg <- lift (json_loads auth_required) ;;
     ty <- lift (get auth_msg "type") ;;
     (if str_eq ty "auth_required" then ret tt
      else raise (UnexpectedHandshake auth_msg)) ;;
     logger LogAuthChallenge ;;
     modify (set_state AUTHENTICATING) ;;
     access_token <- gets token ;;
     ws_send (JObj [("type", JStr "auth"); ("access_token", JStr access_token)]) tx ;;
     auth_result <- lift recv2 ;;
     auth_response <- lift (json_loads auth_result) ;;
     ty <- lift (get auth_response "type") ;;
     (if str_eq ty "auth_ok" then ret tt
      else raise (AuthenticationFailed auth_response)) ;;
     logger LogAuthSuccessful ;;
     modify (set_state CONNECTED) ;;
     modify (set_receive_task (Some Running)) ;;
     ret true)
    (fun e =>
       logger (LogConnectionFailed e) ;;
       modify (set_state DISCONNECTED) ;;
       ret false).

(** [self._pending_requests.pop(k, None)] *)
Definition pending_pop (k : Z) : M unit :=
  modify (fun s => set_pending_requests (delete k (_pending_requests s)) s).

(** *** [_receive_loop] *)

(** The body of the [async for]: one inbound frame. *)
Definition handle_message (message : frame) : M unit :=
  data <- lift (json_loads message) ;;
  logger (LogReceived data) ;;
  msg_type <- lift (get data "type") ;;
  msg_id <- lift (get data "id") ;;
  if str_eq msg_type "result" then
    pending <- gets _pending_requests ;;
    hit <- lift (find pending msg_id) ;;
    match hit with
    | Some (k, future) =>
        pending_pop k ;;
        success <- lift (get data "success") ;;
        if truthy success then
          result <- lift (get data "result") ;;
          set_result future result
        else
          error <- lift (get data "error") ;;
          set_exception future (ServiceError error)
    | None => ret tt
    end
  else if str_eq msg_type "event" then
    callbacks <- gets _event_callbacks ;;
    hit <- lift (find callbacks msg_id) ;;
    match hit with
    | Some (_, callback) =>
        event_data <- lift (get data "event") ;;
        create_task callback event_data
    | None => ret tt
    end
  else if str_eq msg_type "pong" then
    ret tt
  else
    logger (LogUnhandled msg_type).

(** The two [except] clauses around the loop. *)
Definition receive_except (e : exn) : M unit :=
  match e with
  | CancelledError => logger LogLoopCancelled
  | _ => logger (LogLoopError e) ;; modify (set_state DISCONNECTED)
  end.

(** What the [async for] over the socket produces next. *)
Inductive stream_event :=
| Message (message : frame)
| Exhausted                (* the iterator stops: the peer closed normally *)
| Broken (e : exn).        (* the iterator raises *)

(** One turn of the receive task.  A task that was never started, or has
    returned, reads nothing. *)
Definition receive_step (ev : stream_event) (s : client) : client :=
  match _receive_task s with
  | Some Running =>
      match ev with
      | Message message =>
          match handle_message message s with
          | (s', Return _) => s'
          | (s', Raise e) => set_receive_task (Some Finished) (fst (receive_except e s'))
          end
      | Exhausted => set_receive_task (Some Finished) s
      | Broken e => set_receive_task (Some Finished) (fst (receive_except e s))
      end
  | _ => s
  end.

Definition _receive_loop (inbound : list stream_event) (s : client) : client :=
  fold_left (fun s ev => receive_step ev s) inbound s.

(** *** [_safe_callback] and the tasks the loop creates *)

Definition _safe_callback (callback : Callable) (data : json) : M unit :=
  try_except (lift (callback data)) (fun e => logger (LogCallbackError e)).

(** The event loop runs the oldest callback task. *)
Definition run_task (s : client) : client * py unit :=
  match spawned s with
  | [] => (s, Return tt)
  | (callback, data) :: rest => _safe_callback callback data (set_spawned rest s)
  end.

(** *** [_next_id] *)

Definition _next_id : M Z :=
  fun s =>
    let n := _message_id s + 1 in
    (set_message_id n s, Return n).

(** *** [send_command]

    The coroutine suspends once, at [asyncio.wait_for].  [send_command_begin]
    is everything before that: it returns the locals [msg_id] and [future]. *)
Definition send_command_begin (command_type : string)
    (kwargs : list (string * json)) (tx : py unit) : M (Z * nat) :=
  st <- gets state ;;
  (if decide (st = CONNECTED) then ret tt else raise NotConnected) ;;
  msg_id <- _next_id ;;
  let message :=
    JObj (dict_merge [("id", JInt msg_id); ("type", JStr command_type)] kwargs) in
  future <- new_future ;;
  modify (fun s => set_pending_requests (<[msg_id := future]> (_pending_requests s)) s) ;;
  logger (LogSending message) ;;
  ws_send message tx ;;
  ret (msg_id, future).

(** [await future], once the future is done; [None] while it is not. *)
Definition await_future (future : nat) (s : client) : option (py json) :=
  match futures s !! future with
  | Some (Result v) => Some (Return v)
  | Some (Failed e) => Some (Raise e)
  | Some Cancelled => Some (Raise CancelledError)
  | _ => None
  end.

(** The 30 seconds elapse: [wait_for] cancels the future it was waiting on
    and, when the coroutine is next scheduled, raises [TimeoutError]. *)
Definition wait_for_expired (future : nat) : M unit := cancel future.

(** The [except asyncio.TimeoutError] clause. *)
Definition send_command_timeout (msg_id : Z) (command_type : string) : M json :=
  pending_pop msg_id ;;
  raise (CommandTimeout command_type).

(** A whole call with nothing else running but the receive task, which reads
    [inbound] while the caller is suspended.  If the future is still pending
    after that, the timer expires. *)
Definition send_command (command_type : string) (kwargs : list (string * json))
    (tx : py unit) (inbound : list stream_event) : M json :=
  started <- send_command_begin command_type kwargs tx ;;
  modify (_receive_loop inbound) ;;
  fun s =>
    match await_future (snd started) s with
    | Some r => (s, r)
    | None =>
        (wait_for_expired (snd started) ;;
         send_command_timeout (fst started) command_type) s
    end.

(** *** [subscribe_events] *)

Definition subscribe_command (event_type : option string) : list (string * json) :=
  match event_type with
  | Some e => if String.eqb e "" then [] else [("event_type", JStr e)]
  | None => []
  end.

(** Everything after [await self.send_command(...)] has returned. *)
Definition subscribe_events_finish (event_type : option string)
    (callback : option Callable) : M Z :=
  subscription_id <- _next_id ;;
  match callback with
  | Some cb =>
      modify (fun s =>
        set_event_callbacks (<[subscription_id := cb]> (_event_callbacks s)) s)
  | None => ret tt
  end ;;
  logger (LogSubscribed event_type subscription_id) ;;
  ret subscription_id.

Definition subscribe_events (event_type : option string)
    (callback : option Callable) (tx : py unit) (inbound : list stream_event) : M Z :=
  send_command "subscribe_events" (subscribe_command event_type) tx inbound ;;
  subscribe_events_finish event_type callback.

(** *** [ping] *)

Definition ping (tx : py unit) : M unit :=
  msg_id <- _next_id ;;
  ws_send (JObj [("id", JInt msg_id); ("type", JStr "ping")]) tx.

(** *** [close] *)

(** [for future in self._pending_requests.values(): if not future.done():
    future.cancel()] *)
Definition cancel_all (pending : gmap Z nat) (h : list Future) : list Future :=
  foldr cancel_in h (map_to_list pending).*2.

Definition close : M unit :=
  logger LogClosing ;;
  (fun s =>
     match _receive_task s with
     | Some Running =>
         (receive_except CancelledError ;;
          modify (set_receive_task (Some Finished))) s
     | _ => (s, Return tt)
     end) ;;
  modify (fun s => set_futures (cancel_all (_pending_requests s) (futures s)) s) ;;
  modify (set_pending_requests ∅) ;;
  modify (set_event_callbacks ∅) ;;
  modify (set_state DISCONNECTED) ;;
  logger LogClosed.

(** ** Interleavings

    Everything that can happen to a client, one suspension-free stretch at a
    time.  The locals a coroutine carries across its suspension ([msg_id],
    [future], [command_type]) are arguments of the stretch that resumes it. *)
Inductive action :=
| DoConnect (dial : py unit) (recv1 : py frame) (tx : py unit) (recv2 : py frame)
| DoReceive (ev : stream_event)
| DoRunTask
| DoSendCommand (command_type : string) (kwargs : list (string * json)) (tx : py unit)
| DoTimerExpired (future : nat)
| DoTimeoutCleanup (msg_id : Z) (command_type : string)
| DoSubscribeFinish (event_type : option string) (callback : option Callable)
| DoPing (tx : py unit)
| DoClose.

Definition exec (a : action) (s : client) : client :=
  match a with
  | DoConnect dial recv1 tx recv2 => fst (connect dial recv1 tx recv2 s)
  | DoReceive ev => receive_step ev s
  | DoRunTask => fst (run_task s)
  | DoSendCommand command_type kwargs tx => fst (send_command_begin command_type kwargs tx s)
  | DoTimerExpired future => fst (wait_for_expired future s)
  | DoTimeoutCleanup msg_id command_type => fst (send_command_timeout msg_id command_type s)
  | DoSubscribeFinish event_type callback => fst (subscribe_events_finish event_type callback s)
  | DoPing tx => fst (ping tx s)
  | DoClose => fst (close s)
  end.

Definition run (acts : list action) (s : client) : client :=
  fold_left (fun s a => exec a s) acts s.

(** The states a client can be in: those some schedule leads to from a
    freshly constructed object. *)
Definition reachable (s : client) : Prop :=
  exists url token acts, s = run acts (__init__ url token).

(** *** The context manager: [__aenter__] and [__aexit__] *)

(** [await self.connect(); return self]: the result of [connect] is dropped. *)
Definition __aenter__ (dial : py unit) (recv1 : py frame) (tx : py unit)
    (recv2 : py frame) : M unit :=
  connect dial recv1 tx recv2 ;;
  ret tt.

(** [await self.close()]; returning [None] lets an exception of the body
    propagate. *)
Definition __aexit__ : M unit := close.

(** [async with client: body].  An exception of the body is raised again
    once [__aexit__] has run. *)
Definition async_with {A} (dial : py unit) (recv1 : py frame) (tx : py unit)
    (recv2 : py frame) (body : M A) : M A :=
  __aenter__ dial recv1 tx recv2 ;;
  fun s =>
    match body s with
    | (s', outcome) =>
        match __aexit__ s' with
        | (s'', Return _) => (s'', outcome)
        | (s'', Raise e) => (s'', Raise e)
        end
    end.

(** ** [hass_api.py]: the operations built on the client

    [HomeAssistantAPI] holds the client and logs to a logger of its own.
    Each operation is given with the same environment arguments as
    [send_command]: the answer of the socket to the send, and what the
    receive task reads while the operation waits. *)

Inductive api_log_record :=
| LogFetched (result : json)                     (* f"Fetched {len(result)} entities" *)
| LogCalling (domain service : string) (entity_id : option string).

Record hass := Hass {
  ws : client;
  api_log : list api_log_record
}.

(** What an operation of the API comes to: the exceptions of the client and,
    from indexing a dict, KeyError. *)
Inductive api_py (A : Type) :=
| ApiReturn (a : A)
| ApiRaise (e : exn)
| ApiKeyError (key : string).
Arguments ApiReturn {A} a.
Arguments ApiRaise {A} e.
Arguments ApiKeyError {A} key.

(** Whether [len(v)] is defined. *)
Definition has_len (v : json) : bool :=
  match v with
  | JArr _ | JObj _ | JStr _ => true
  | _ => false
  end.

(** [async def get_states] *)
Definition get_states (tx : py unit) (inbound : list stream_event) (h : hass)
  : hass * api_py json :=
  match send_command "get_states" [] tx inbound (ws h) with
  | (c, Raise e) => (Hass c (api_log h), ApiRaise e)
  | (c, Return result) =>
      if has_len result
      then (Hass c (api_log h ++ [LogFetched result]), ApiReturn result)
      else (Hass c (api_log h), ApiRaise TypeError)
  end.

(** [for state in states]: what iterating a value that has a length yields. *)
Definition iterate (v : json) : list json :=
  match v with
  | JArr items => items
  | JObj fields => map (fun kv => JStr (fst kv)) fields
  | JStr s => map (fun c => JStr (String c EmptyString)) (String.list_ascii_of_string s)
  | _ => []
  end.

(** [state[key]] *)
Definition getitem (v : json) (key : string) : api_py json :=
  match v with
  | JObj d =>
      match assoc key d with
      | Some x => ApiReturn x
      | None => ApiKeyError key
      end
  | _ => ApiRaise TypeError
  end.

(** The loop of [get_state]. *)
Fixpoint first_state (entity_id : string) (states : list json) : api_py (option json) :=
  match states with
  | [] => ApiReturn None
  | state :: rest =>
      match getitem state "entity_id" with
      | ApiReturn v =>
          if str_eq v entity_id then ApiReturn (Some state)
          else first_state entity_id rest
      | ApiRaise e => ApiRaise e
      | ApiKeyError key => ApiKeyError key
      end
  end.

(** [async def get_state] *)
Definition get_state (entity_id : string) (tx : py unit)
    (inbound : list stream_event) (h : hass) : hass * api_py (option json) :=
  match get_states tx inbound h with
  | (h', ApiReturn states) => (h', first_state entity_id (iterate states))
  | (h', ApiRaise e) => (h', ApiRaise e)
  | (h', ApiKeyError key) => (h', ApiKeyError key)
  end.

(** The [kwargs] that [call_service] passes to [send_command]. *)
Definition service_call (domain service : string) (entity_id : option string)
    (service_data : list (string * json)) : list (string * json) :=
  let call := [("domain", JStr domain); ("service", JStr service)] in
  let data :=
    match entity_id with
    | Some e => if String.eqb e "" then [] else [("entity_id", JStr e)]
    | None => []
    end in
  let data := dict_merge data service_data in
  match data with
  | [] => call
  | _ :: _ => setitem "service_data" (JObj data) call
  end.

(** [async def call_service] *)
Definition call_service (domain service : string) (entity_id : option string)
    (service_data : list (string * json)) (tx : py unit)
    (inbound : list stream_event) (h : hass) : hass * py json :=
  let logged := api_log h ++ [LogCalling domain service entity_id] in
  match send_command "call_service"
          (service_call domain service entity_id service_data) tx inbound (ws h) with
  | (c, outcome) => (Hass c logged, outcome)
  end.

(** [async def turn_on_light]; the result of the call is dropped. *)
Definition turn_on_light (entity_id : string) (brightness : option Z)
    (rgb_color : option (list json)) (tx : py unit) (inbound : list stream_event)
    (h : hass) : hass * py unit :=
  let service_data := [] in
  let service_data :=
    match brightness with
    | Some b => setitem "brightness" (JInt b) service_data
    | None => service_data
    end in
  let service_data :=
    match rgb_color with
    | Some rgb => setitem "rgb_color" (JArr rgb) service_data
    | None => service_data
    end in
  match call_service "light" "turn_on" (Some entity_id) service_data tx inbound h with
  | (h', Return _) => (h', Return tt)
  | (h', Raise e) => (h', Raise e)
  end.

(** [async def subscribe_state_changes] *)
Definition subscribe_state_changes (callback : Callable) (tx : py unit)
    (inbound : list stream_event) (h : hass) : hass * py Z :=
  match subscribe_events (Some "state_changed") (Some callback) tx inbound (ws h) with
  | (c, outcome) => (Hass c (api_log h), outcome)
  end.

(** ** [config.py]: merging configuration dictionaries *)

(** [deep_merge(base, override)].  The loop runs over the entries of
    [override] in order, updating [result], a copy of [base]; the recursion
    is on the value found in [override]. *)
Fixpoint deep_merge_value (value : json) : list (string * json) -> list (string * json) :=
  match value with
  | JObj override =>
      (fix loop (override result : list (string * json)) {struct override} :=
         match override with
         | [] => result
         | (key, value) :: rest =>
             loop rest
               (setitem key
                  match assoc key result, value with
                  | Some (JObj old), JObj _ => JObj (deep_merge_value value old)
                  | _, _ => value
                  end
                  result)
         end) override
  | _ => fun result => result
  end.

Definition deep_merge (base override : list (string * json)) : list (string * json) :=
  deep_merge_value (JObj override) base.

(** ** [config.py]: the WebSocket URL *)

(** [v.replace(old, new, 1)]: the first occurrence of [old], if any, is
    replaced. *)
Fixpoint replace_first (old new v : list Ascii.ascii) : list Ascii.ascii :=
  if bool_decide (old `prefix_of` v) then new ++ drop (length old) v
  else match v with
       | [] => []
       | c :: rest => c :: replace_first old new rest
       end.

(** [v.rstrip(c)] for a single character [c]. *)
Fixpoint rstrip (c : Ascii.ascii) (v : list Ascii.ascii) : list Ascii.ascii :=
  match v with
  | [] => []
  | x :: rest =>
      match rstrip c rest with
      | [] => if decide (x = c) then [] else [x]
      | r => x :: r
      end
  end.

(** A URL as its sequence of bytes.  The patterns searched for are ASCII, so
    a match at the level of bytes is a match at the level of characters. *)
Definition chars (s : string) : list Ascii.ascii := String.list_ascii_of_string s.

(** The character [/]. *)
Definition slash : Ascii.ascii := Ascii.ascii_of_nat 47.

(** [Config.convert_to_ws], on the characters of the URL. *)
Definition convert_to_ws_chars (v : list Ascii.ascii) : list Ascii.ascii :=
  let v :=
    if bool_decide (chars "http://" `prefix_of` v)
    then replace_first (chars "http://") (chars "ws://") v
    else if bool_decide (chars "https://" `prefix_of` v)
    then replace_first (chars "https://") (chars "wss://") v
    else v in
  if bool_decide (chars "/api/websocket" `suffix_of` v) then v
  else rstrip slash v ++ chars "/api/websocket".

Definition convert_to_ws (v : string) : string :=
  String.string_of_list_ascii (convert_to_ws_chars (chars v)).

(** ** Specification vocabulary *)

(** A relation between the state before and after holds of a method. *)
Definition steps (R : client -> client -> Prop) {A} (m : M A) : Prop :=
  forall s, R s (fst (m s)).

(** No key of either table is ahead of the counter. *)
Definition bounded (s : client) : Prop :=
  (forall k, is_Some (_pending_requests s !! k) -> k <= _message_id s) /\
  (forall k, is_Some (_event_callbacks s !! k) -> k <= _message_id s).

(** A future that is done stays as it is. *)
Definition settled (h h' : list Future) : Prop :=
  forall f st, h !! f = Some st -> done st = true -> h' !! f = Some st.

(** What holds of every step, whoever takes it: the counter never goes down,
    [bounded] is kept, and futures are [settled]. *)
Definition evolves (s s' : client) : Prop :=
  _message_id s <= _message_id s' /\
  (bounded s -> bounded s') /\
  settled (futures s) (futures s').

(** What the receive task leaves alone: the counter, the frames sent, the
    subscription registry and the socket. *)
Definition quiet (s s' : client) : Prop :=
  _message_id s' = _message_id s /\
  outbox s' = outbox s /\
  _event_callbacks s' = _event_callbacks s /\
  _websocket s' = _websocket s.

(** [recv] returned a frame that decodes to a dict whose ["type"] is [ty]. *)
Definition announces (r : py frame) (ty : string) : bool :=
  match r with
  | Return (Json data) =>
      match get data "type" with
      | Return v => str_eq v ty
      | Raise _ => false
      end
  | _ => false
  end.

(** ** Sample states *)

Definition typed (ty : string) : frame := Json (JObj [("type", JStr ty)]).

Definition fresh : client := __init__ "ws://homeassistant.local:8123/api/websocket" "secret".

(** After a successful handshake. *)
Definition online : client :=
  fst (connect (Return tt) (Return (typed "auth_required")) (Return tt)
         (Return (typed "auth_ok")) fresh).

(** With [get_states] sent under identifier 1 and not yet answered. *)
Definition waiting : client :=
  fst (send_command_begin "get_states" [] (Return tt) online).

(** A result frame answering [msg_id]. *)
Definition answer (msg_id : Z) (result : json) : json :=
  JObj [("id", JInt msg_id); ("type", JStr "result");
        ("success", JBool true); ("result", result)].

(** An event frame for subscription [k] carrying [payload]. *)
Definition event_frame (k : Z) (payload : json) : frame :=
  Json (JObj [("id", JInt k); ("type", JStr "event"); ("event", payload)]).

(** The task the loop creates for an event, if its subscription is
    registered. *)
Definition delivery (callbacks : gmap Z Callable) (ev : Z * json)
  : option (Callable * json) :=
  match callbacks !! fst ev with
  | Some cb => Some (cb, snd ev)
  | None => None
  end.

(** * Properties *)

(** ** Reasoning about monadic code *)

Ltac run_m :=
  unfold bind, ret, raise, lift, gets, modify, logger, try_except in *; simpl in *.

(** A relation holds of a method when it holds of every primitive the method
    is made of. *)
Section Stepwise.
Variable R : client -> client -> Prop.
Context `{!PreOrder R}.

Lemma steps_ret {A} (a : A) : steps R (ret a).
Proof. intros s. reflexivity. Qed.

Lemma steps_raise {A} (e : exn) : steps R (@raise A e).
Proof. intros s. reflexivity. Qed.

Lemma steps_lift {A} (r : py A) : steps R (lift r).
Proof. intros s. reflexivity. Qed.

Lemma steps_gets {A} (f : client -> A) : steps R (gets f).
Proof. intros s. reflexivity. Qed.

Lemma steps_modify (f : client -> client) :
  (forall s, R s (f s)) -> steps R (modify f).
Proof. intros Hf s. apply Hf. Qed.

Lemma steps_bind {A B} (m : M A) (k : A -> M B) :
  steps R m -> (forall a, steps R (k a)) -> steps R (bind m k).
Proof.
  intros Hm Hk s. unfold bind.
  specialize (Hm s). destruct (m s) as [s' [a|e]]; simpl in *.
  - etransitivity; [exact Hm | apply Hk].
  - exact Hm.
Qed.

Lemma steps_try_except {A} (body : M A) (handler : exn -> M A) :
  steps R body -> (forall e, steps R (handler e)) -> steps R (try_except body handler).
Proof.
  intros Hb Hh s. unfold try_except.
  specialize (Hb s). destruct (body s) as [s' [a|e]]; simpl in *; [exact Hb|].
  destruct (is_exception e); simpl; [|exact Hb].
  etransitivity; [exact Hb | apply Hh].
Qed.

Lemma steps_fold {A} (f : A -> client -> client) (l : list A) :
  (forall a s, R s (f a s)) ->
  forall s, R s (fold_left (fun s a => f a s) l s).
Proof.
  intros Hf. induction l as [|a l IH]; intros s; simpl; [reflexivity|].
  etransitivity; [apply Hf | apply IH].
Qed.
End Stepwise.

(** ** How a client evolves *)

#[local] Instance evolves_preorder : PreOrder evolves.
Proof.
  split.
  - intros s. unfold evolves, settled. auto with zarith.
  - intros a b c (H1 & H2 & H3) (H4 & H5 & H6). unfold evolves, settled in *.
    split; [lia|]. split; [tauto|]. eauto.
Qed.

Lemma settled_refl h : settled h h.
Proof. intros f st H _. exact H. Qed.

Lemma settled_resolve h f outcome :
  h !! f = Some Pending -> settled h (<[f := outcome]> h).
Proof.
  intros Hf g st Hg Hd.
  destruct (decide (f = g)) as [->|Hne].
  - rewrite Hf in Hg. inversion Hg; subst. discriminate.
  - rewrite list_lookup_insert_ne; auto.
Qed.

Lemma settled_cancel_in f h : settled h (cancel_in f h).
Proof.
  unfold cancel_in. destruct (h !! f) as [[| | |]|] eqn:E;
    auto using settled_refl, settled_resolve.
Qed.

Lemma settled_trans h1 h2 h3 : settled h1 h2 -> settled h2 h3 -> settled h1 h3.
Proof. unfold settled. eauto. Qed.

Lemma settled_app h : settled h (h ++ [Pending]).
Proof.
  intros f st Hf _. rewrite lookup_app_l; [exact Hf|].
  eapply lookup_lt_Some; eauto.
Qed.

Lemma settled_cancel_all pending h : settled h (cancel_all pending h).
Proof.
  unfold cancel_all. induction ((map_to_list pending).*2) as [|f l IH]; simpl.
  - apply settled_refl.
  - eapply settled_trans; [exact IH | apply settled_cancel_in].
Qed.

Lemma evolves_same s s' :
  _message_id s' = _message_id s ->
  _pending_requests s' = _pending_requests s ->
  _event_callbacks s' = _event_callbacks s ->
  futures s' = futures s ->
  evolves s s'.
Proof.
  intros H1 H2 H3 H4. unfold evolves, bounded.
  rewrite H1, H2, H3, H4. split; [lia|]. split; [tauto|]. apply settled_refl.
Qed.

Lemma evolves_futures s h :
  settled (futures s) h -> evolves s (set_futures h s).
Proof. intros H. unfold evolves, bounded. simpl. split; [lia|]. tauto. Qed.

Lemma evolves_delete s k :
  evolves s (set_pending_requests (delete k (_pending_requests s)) s).
Proof.
  unfold evolves, bounded. simpl. split; [lia|]. split; [|apply settled_refl].
  intros [Hp Hc]. split; [|exact Hc].
  intros j Hj. apply Hp. rewrite lookup_delete in Hj.
  destruct (decide (k = j)); [destruct Hj; discriminate | exact Hj].
Qed.

Lemma evolves_clear_pending s : evolves s (set_pending_requests ∅ s).
Proof.
  unfold evolves, bounded. simpl. split; [lia|]. split; [|apply settled_refl].
  intros [_ Hc]. split; [|exact Hc].
  intros j Hj. rewrite lookup_empty in Hj. destruct Hj; discriminate.
Qed.

Lemma evolves_clear_callbacks s : evolves s (set_event_callbacks ∅ s).
Proof.
  unfold evolves, bounded. simpl. split; [lia|]. split; [|apply settled_refl].
  intros [Hp _]. split; [exact Hp|].
  intros j Hj. rewrite lookup_empty in Hj. destruct Hj; discriminate.
Qed.

Lemma evolves_next_id : steps evolves _next_id.
Proof.
  intros s. unfold _next_id, evolves, bounded. simpl.
  split; [lia|]. split; [|apply settled_refl].
  intros [Hp Hc]. split; intros k Hk; [specialize (Hp k Hk) | specialize (Hc k Hk)]; lia.
Qed.

Lemma evolves_resolve future outcome : steps evolves (resolve future outcome).
Proof.
  intros s. unfold resolve.
  destruct (futures s !! future) as [[| | |]|] eqn:E; simpl; try reflexivity.
  apply evolves_futures, settled_resolve, E.
Qed.

Lemma evolves_cancel future : steps evolves (cancel future).
Proof. intros s. apply evolves_futures, settled_cancel_in. Qed.

Lemma evolves_ws_send message tx : steps evolves (ws_send message tx).
Proof.
  intros s. unfold ws_send. destruct (_websocket s); [|reflexivity].
  destruct tx; simpl; [|reflexivity]. by apply evolves_same.
Qed.

Lemma evolves_pending_pop k : steps evolves (pending_pop k).
Proof. intros s. apply evolves_delete. Qed.

Lemma evolves_logger r : steps evolves (logger r).
Proof. intros s. by apply evolves_same. Qed.

Lemma evolves_create_task callback data : steps evolves (create_task callback data).
Proof. intros s. by apply evolves_same. Qed.

Lemma evolves_set_state v : steps evolves (modify (set_state v)).
Proof. intros s. by apply evolves_same. Qed.

Lemma evolves_set_receive_task v : steps evolves (modify (set_receive_task v)).
Proof. intros s. by apply evolves_same. Qed.

Create HintDb evolve.
#[local] Hint Resolve evolves_pending_pop evolves_next_id evolves_resolve evolves_cancel evolves_ws_send evolves_logger
  evolves_create_task evolves_set_state evolves_set_receive_task : evolve.

(** Break a method into its primitives. *)
Ltac stepwise_in R :=
  repeat first
    [ apply (@steps_bind R _); [|intros ?]
    | apply (@steps_try_except R _); [|intros ?]
    | apply (@steps_ret R _)
    | apply (@steps_raise R _)
    | apply (@steps_lift R _)
    | apply (@steps_gets R _)
    | solve [eauto with evolve]
    | case_match ].

Ltac stepwise := stepwise_in evolves.

Lemma evolves_connect dial recv1 tx recv2 :
  steps evolves (connect dial recv1 tx recv2).
Proof.
  unfold connect. stepwise.
  intros s. by apply evolves_same.
Qed.

Lemma evolves_handle_message message : steps evolves (handle_message message).
Proof.
  unfold handle_message, set_result, set_exception. stepwise.
Qed.

Lemma evolves_receive_except e : steps evolves (receive_except e).
Proof. unfold receive_except. destruct e; stepwise. Qed.

Lemma evolves_finished s : evolves s (set_receive_task (Some Finished) s).
Proof. by apply evolves_same. Qed.

Lemma evolves_receive_step ev s : evolves s (receive_step ev s).
Proof.
  unfold receive_step. destruct (_receive_task s) as [[|]|]; try reflexivity.
  destruct ev as [message| |e].
  - pose proof (evolves_handle_message message s) as H.
    destruct (handle_message message s) as [s' [a|e]]; simpl in *; [exact H|].
    etransitivity; [exact H|].
    etransitivity; [apply evolves_receive_except | apply evolves_finished].
  - apply evolves_finished.
  - etransitivity; [apply evolves_receive_except | apply evolves_finished].
Qed.

Lemma evolves_safe_callback callback data : steps evolves (_safe_callback callback data).
Proof. unfold _safe_callback. stepwise. Qed.

Lemma evolves_run_task s : evolves s (fst (run_task s)).
Proof.
  unfold run_task. destruct (spawned s) as [|[callback data] rest]; [reflexivity|].
  etransitivity; [|apply evolves_safe_callback]. by apply evolves_same.
Qed.

Lemma lookup_insert_bounded {V} (m : gmap Z V) (n k : Z) (v : V) :
  (forall j, is_Some (m !! j) -> j <= n) ->
  is_Some (<[n + 1 := v]> m !! k) -> k <= n + 1.
Proof.
  intros Hm Hk. destruct (decide (k = n + 1)) as [->|Hne]; [lia|].
  rewrite lookup_insert_ne in Hk by congruence. specialize (Hm k Hk). lia.
Qed.

Lemma evolves_send_command_begin command_type kwargs tx :
  steps evolves (send_command_begin command_type kwargs tx).
Proof.
  intros s. unfold send_command_begin, _next_id, new_future, ws_send. run_m.
  destruct (decide (state s = CONNECTED)); simpl; [|reflexivity].
  assert (evolves s
    (set_log (log s ++ [LogSending (JObj (dict_merge
         [("id", JInt (_message_id s + 1)); ("type", JStr command_type)] kwargs))])
       (set_pending_requests (<[_message_id s + 1 := length (futures s)]> (_pending_requests s))
          (set_futures (futures s ++ [Pending]) (set_message_id (_message_id s + 1) s)))))
    as Hreg.
  { unfold evolves, bounded. simpl. split; [lia|]. split; [|apply settled_app].
    intros [Hp Hc]. split.
    - intros k. by apply lookup_insert_bounded.
    - intros k Hk. specialize (Hc k Hk). lia. }
  destruct (_websocket s); simpl; [|exact Hreg].
  destruct tx; simpl; [|exact Hreg].
  etransitivity; [exact Hreg|]. by apply evolves_same.
Qed.

Lemma evolves_send_command_timeout msg_id command_type :
  steps evolves (send_command_timeout msg_id command_type).
Proof. unfold send_command_timeout. stepwise. Qed.

Lemma evolves_subscribe_events_finish event_type callback :
  steps evolves (subscribe_events_finish event_type callback).
Proof.
  intros s. unfold subscribe_events_finish, _next_id. run_m.
  destruct callback as [cb|]; simpl.
  - unfold evolves, bounded. simpl. split; [lia|]. split; [|apply settled_refl].
    intros [Hp Hc]. split.
    + intros k Hk. specialize (Hp k Hk). lia.
    + intros k. by apply lookup_insert_bounded.
  - unfold evolves, bounded. simpl. split; [lia|]. split; [|apply settled_refl].
    intros [Hp Hc]. split; intros k Hk;
      [specialize (Hp k Hk) | specialize (Hc k Hk)]; lia.
Qed.

Lemma evolves_ping tx : steps evolves (ping tx).
Proof. unfold ping. stepwise. Qed.

Lemma evolves_close : steps evolves close.
Proof.
  unfold close. stepwise.
  - intros s. destruct (_receive_task s) as [[|]|]; try reflexivity.
    revert s. change (steps evolves
      (receive_except CancelledError ;; modify (set_receive_task (Some Finished)))).
    stepwise.
  - intros s. apply evolves_futures, settled_cancel_all.
  - intros s. apply evolves_clear_pending.
  - intros s. apply evolves_clear_callbacks.
Qed.

Lemma exec_evolves a s : evolves s (exec a s).
Proof.
  destruct a; cbn [exec].
  - apply evolves_connect.
  - apply evolves_receive_step.
  - apply evolves_run_task.
  - apply evolves_send_command_begin.
  - apply evolves_cancel.
  - apply evolves_send_command_timeout.
  - apply evolves_subscribe_events_finish.
  - apply evolves_ping.
  - apply evolves_close.
Qed.

Lemma run_evolves acts s : evolves s (run acts s).
Proof. unfold run. apply (steps_fold evolves). intros a t. apply exec_evolves. Qed.

Lemma bounded_init url token : bounded (__init__ url token).
Proof.
  split; intros k Hk; simpl in Hk; rewrite lookup_empty in Hk;
    destruct Hk; discriminate.
Qed.

Lemma reachable_bounded s : reachable s -> bounded s.
Proof.
  intros (url & token & acts & ->).
  destruct (run_evolves acts (__init__ url token)) as (_ & H & _).
  apply H, bounded_init.
Qed.

Lemma run_app acts1 acts2 s : run (acts1 ++ acts2) s = run acts2 (run acts1 s).
Proof. unfold run. apply fold_left_app. Qed.

Lemma reachable_run acts s : reachable s -> reachable (run acts s).
Proof.
  intros (url & token & acts0 & ->). exists url, token, (acts0 ++ acts).
  symmetry. apply run_app.
Qed.

(** ** Futures under cancellation *)

Lemma cancel_in_lookup_ne x f h : x <> f -> cancel_in x h !! f = h !! f.
Proof.
  intros Hne. unfold cancel_in.
  destruct (h !! x) as [[| | |]|]; auto using list_lookup_insert_ne.
Qed.

Lemma cancel_in_lookup_eq f h :
  h !! f = Some Pending -> cancel_in f h !! f = Some Cancelled.
Proof.
  intros Hf. unfold cancel_in. rewrite Hf.
  apply list_lookup_insert_eq. eapply lookup_lt_Some; eauto.
Qed.

Lemma cancel_refs_lookup (l : list nat) h f :
  h !! f = Some Pending -> f ∈ l -> foldr cancel_in h l !! f = Some Cancelled.
Proof.
  intros Hf. induction l as [|x l IH]; intros Hin; [by apply elem_of_nil in Hin|].
  simpl. destruct (decide (x = f)) as [->|Hne].
  - destruct (decide (f ∈ l)) as [Hl|Hl].
    + specialize (IH Hl). unfold cancel_in at 1. rewrite IH. exact IH.
    + apply cancel_in_lookup_eq.
      clear IH Hin. induction l as [|y l IH]; [exact Hf|].
      simpl. rewrite cancel_in_lookup_ne.
      * apply IH. intros H. apply Hl. by right.
      * intros ->. apply Hl. by left.
  - rewrite cancel_in_lookup_ne by exact Hne. apply IH.
    apply elem_of_cons in Hin as [->|Hin]; [congruence | exact Hin].
Qed.

Lemma cancel_all_lookup (pending : gmap Z nat) h k f :
  pending !! k = Some f -> h !! f = Some Pending ->
  cancel_all pending h !! f = Some Cancelled.
Proof.
  intros Hk Hf. unfold cancel_all. apply cancel_refs_lookup; [exact Hf|].
  apply list_elem_of_fmap. exists (k, f). split; [done|].
  by apply elem_of_map_to_list.
Qed.

(** ** A receive task that has returned reads nothing *)

Lemma receive_loop_finished inbound s :
  _receive_task s <> Some Running -> _receive_loop inbound s = s.
Proof.
  intros H. unfold _receive_loop. induction inbound as [|ev l IH]; [done|].
  simpl. replace (receive_step ev s) with s; [exact IH|].
  unfold receive_step. destruct (_receive_task s) as [[|]|]; congruence.
Qed.

(** ** C1: a malformed frame *)

(** C1, as the code has it: a frame that is not well-formed JSON ends the
    Receive Loop.  The failure is logged as a receive-loop error, the state
    becomes Disconnected, the task returns and reads no further frame.  The
    correlation table, the futures and the subscription registry are left as
    they were. *)
Theorem malformed_frame_ends_loop (s : client) (raw : string) :
  _receive_task s = Some Running ->
  let s' := receive_step (Message (BadJson raw)) s in
  log s' = log s ++ [LogLoopError (JSONDecodeError raw)] /\
  levelno (LogLoopError (JSONDecodeError raw)) = ERROR /\
  state s' = DISCONNECTED /\
  _receive_task s' = Some Finished /\
  (forall inbound, _receive_loop inbound s' = s') /\
  _pending_requests s' = _pending_requests s /\
  futures s' = futures s /\
  _event_callbacks s' = _event_callbacks s.
Proof.
  intros Hrun s'. subst s'. unfold receive_step. rewrite Hrun. simpl.
  repeat split; try reflexivity.
  intros inbound. by apply receive_loop_finished.
Qed.

Lemma malformed_frame_ends_loop_witness :
  _receive_task waiting = Some Running /\
  state (receive_step (Message (BadJson "{oops")) waiting) = DISCONNECTED.
Proof.
  split; [reflexivity|].
  apply (malformed_frame_ends_loop waiting "{oops"). reflexivity.
Defined.

(** C1 as the specification words it fails: with one request in flight on a
    connected client, a malformed frame stops the loop and changes the state,
    and a well-formed answer that follows it is never processed. *)
Lemma malformed_frame_not_skipped :
  let answer := Message (Json (answer 1 (JArr []))) in
  let s' := receive_step (Message (BadJson "{oops")) waiting in
  state waiting = CONNECTED /\ _receive_task waiting = Some Running /\
  state s' = DISCONNECTED /\ _receive_task s' = Some Finished /\
  futures (_receive_loop [answer] waiting) = [Result (JArr [])] /\
  futures (_receive_loop [answer] s') = [Pending].
Proof. vm_compute. repeat split; reflexivity. Qed.

(** ** C2: the inbound stream breaks *)

Lemma timeout_path (s : client) (msg_id : Z) (future : nat) (command_type : string) :
  let r := (wait_for_expired future ;; send_command_timeout msg_id command_type) s in
  snd r = Raise (CommandTimeout command_type) /\
  _pending_requests (fst r) = delete msg_id (_pending_requests s) /\
  state (fst r) = state s /\
  _message_id (fst r) = _message_id s /\
  _event_callbacks (fst r) = _event_callbacks s /\
  futures (fst r) = cancel_in future (futures s).
Proof. simpl. repeat split; reflexivity. Qed.

Lemma close_effect (s : client) :
  let s' := fst (close s) in
  state s' = DISCONNECTED /\
  _pending_requests s' = ∅ /\
  _event_callbacks s' = ∅ /\
  _message_id s' = _message_id s /\
  futures s' = cancel_all (_pending_requests s) (futures s).
Proof.
  unfold close. run_m. destruct (_receive_task s) as [[|]|]; simpl;
    repeat split; reflexivity.
Qed.

(** C2, as the code has it: when the inbound stream raises, the Receive Loop
    logs the error, sets the state to Disconnected and returns.  It resolves
    nothing: the correlation table and every future are left as they were.
    A caller still waiting is released by its own timeout, which removes its
    slot and fails the call with CommandTimeout, or by [close], which cancels
    every pending future still in the table and empties the table. *)
Theorem stream_error_resolves_nothing (s : client) (e : exn) :
  _receive_task s = Some Running ->
  is_exception e = true ->
  let s' := receive_step (Broken e) s in
  state s' = DISCONNECTED /\
  _receive_task s' = Some Finished /\
  log s' = log s ++ [LogLoopError e] /\
  _pending_requests s' = _pending_requests s /\
  futures s' = futures s /\
  (forall msg_id future command_type,
     let r := (wait_for_expired future ;; send_command_timeout msg_id command_type) s' in
     snd r = Raise (CommandTimeout command_type) /\
     _pending_requests (fst r) !! msg_id = None) /\
  (let s'' := fst (close s') in
   state s'' = DISCONNECTED /\
   _pending_requests s'' = ∅ /\
   forall msg_id future,
     _pending_requests s' !! msg_id = Some future ->
     futures s' !! future = Some Pending ->
     futures s'' !! future = Some Cancelled).
Proof.
  intros Hrun He s'.
  assert (s' = set_receive_task (Some Finished)
                 (set_state DISCONNECTED (set_log (log s ++ [LogLoopError e]) s)))
    as Hs'.
  { subst s'. unfold receive_step. rewrite Hrun.
    destruct e; try discriminate; reflexivity. }
  rewrite Hs'. simpl.
  split; [reflexivity|]. split; [reflexivity|]. split; [reflexivity|].
  split; [reflexivity|]. split; [reflexivity|]. split.
  - intros msg_id future command_type. split; [reflexivity|].
    apply lookup_delete_eq.
  - split; [reflexivity|]. split; [reflexivity|].
    intros msg_id future Hk Hf. eapply cancel_all_lookup; eauto.
Qed.

Lemma stream_error_resolves_nothing_witness :
  _receive_task waiting = Some Running /\
  is_exception (TransportError "connection lost") = true /\
  futures (receive_step (Broken (TransportError "connection lost")) waiting)
    = futures waiting.
Proof.
  split; [reflexivity|]. split; [reflexivity|].
  apply (stream_error_resolves_nothing waiting (TransportError "connection lost"));
    reflexivity.
Defined.

(** C2 as the specification words it fails: with request 1 in flight, an I/O
    error on the stream leaves request 1 in the table with its future still
    pending; and when the stream merely ends, the state stays Connected. *)
Lemma stream_error_leaves_request_pending :
  let s' := receive_step (Broken (TransportError "connection lost")) waiting in
  let s'' := receive_step Exhausted waiting in
  _pending_requests waiting !! 1 = Some 0%nat /\
  futures waiting !! 0%nat = Some Pending /\
  _receive_task s' = Some Finished /\
  state s' = DISCONNECTED /\
  _pending_requests s' !! 1 = Some 0%nat /\
  futures s' !! 0%nat = Some Pending /\
  _receive_task s'' = Some Finished /\
  state s'' = CONNECTED /\
  futures s'' !! 0%nat = Some Pending.
Proof. vm_compute. repeat split; reflexivity. Qed.

(** ** C4: commands on a client that is not connected *)

Lemma send_command_begin_not_connected (s : client) command_type kwargs tx :
  state s <> CONNECTED ->
  send_command_begin command_type kwargs tx s = (s, Raise NotConnected).
Proof.
  intros H. unfold send_command_begin. run_m.
  destruct (decide (state s = CONNECTED)); [contradiction | reflexivity].
Qed.

Lemma send_command_not_connected (s : client) command_type kwargs tx inbound :
  state s <> CONNECTED ->
  send_command command_type kwargs tx inbound s = (s, Raise NotConnected).
Proof.
  intros H. unfold send_command, bind at 1.
  by rewrite send_command_begin_not_connected.
Qed.

(** C4: in any state other than Connected, [send_command] raises NotConnected
    at once.  The client is left exactly as it was, so no slot is registered
    and no identifier is drawn; the call never reaches its suspension point.
    In particular this is so after [close], which always leaves the state
    Disconnected. *)
Theorem send_command_requires_connected
    (s closing : client) command_type kwargs tx inbound :
  state s <> CONNECTED ->
  send_command_begin command_type kwargs tx s = (s, Raise NotConnected) /\
  send_command command_type kwargs tx inbound s = (s, Raise NotConnected) /\
  (let closed := fst (close closing) in
   state closed = DISCONNECTED /\
   send_command command_type kwargs tx inbound closed = (closed, Raise NotConnected)).
Proof.
  intros H.
  split; [by apply send_command_begin_not_connected|].
  split; [by apply send_command_not_connected|].
  destruct (close_effect closing) as (Hst & _). simpl in *.
  split; [exact Hst|].
  apply send_command_not_connected. rewrite Hst. discriminate.
Qed.

Lemma send_command_requires_connected_witness :
  state fresh <> CONNECTED /\
  send_command "get_states" [] (Return tt) [] fresh = (fresh, Raise NotConnected).
Proof.
  split; [discriminate|].
  apply (send_command_requires_connected fresh waiting "get_states" [] (Return tt) []).
  discriminate.
Defined.

(** ** C3: a command that is never answered *)

Lemma find_Some {V} (m : gmap Z V) (id : json) (k : Z) (v : V) :
  find m id = Return (Some (k, v)) -> int_key id = Return (Some k) /\ m !! k = Some v.
Proof.
  unfold find. destruct (int_key id) as [[z|]|]; try discriminate.
  destruct (m !! z) eqn:E; intros H; inversion H; subst. auto.
Qed.

Lemma find_missing {V} (m : gmap Z V) (id : json) (k : Z) :
  int_key id = Return (Some k) -> m !! k = None -> find m id = Return None.
Proof. intros H1 H2. unfold find. by rewrite H1, H2. Qed.

(** A result frame whose identifier is not in the table changes nothing but
    the debug log. *)
Lemma unknown_result_ignored (s : client) (data id : json) :
  get data "type" = Return (JStr "result") ->
  get data "id" = Return id ->
  find (_pending_requests s) id = Return None ->
  handle_message (Json data) s = (set_log (log s ++ [LogReceived data]) s, Return tt).
Proof.
  intros Hty Hid Hfind. unfold handle_message. run_m.
  rewrite Hty, Hid. simpl. by rewrite Hfind.
Qed.

(** C3: a [send_command] whose future is still pending once the receive
    task has read everything that arrives fails with CommandTimeout, and when
    it has failed its identifier is no longer in the table, every other
    entry being as the receive task left it.  A result frame that arrives
    for that identifier afterwards returns normally and changes nothing but
    the debug log.  The same holds under any schedule of other activity
    between the sending and the expiry of the timer. *)
Theorem unanswered_command_times_out
    (s s1 : client) command_type kwargs tx (msg_id : Z) (future : nat)
    (inbound : list stream_event) (acts : list action) (data id : json) :
  send_command_begin command_type kwargs tx s = (s1, Return (msg_id, future)) ->
  await_future future (_receive_loop inbound s1) = None ->
  await_future future (run acts s1) = None ->
  get data "type" = Return (JStr "result") ->
  get data "id" = Return id ->
  int_key id = Return (Some msg_id) ->
  let call := send_command command_type kwargs tx inbound s in
  let r := (wait_for_expired future ;; send_command_timeout msg_id command_type)
             (run acts s1) in
  snd call = Raise (CommandTimeout command_type) /\
  _pending_requests (fst call) !! msg_id = None /\
  (forall k, k <> msg_id ->
     _pending_requests (fst call) !! k
       = _pending_requests (_receive_loop inbound s1) !! k) /\
  state (fst call) = state (_receive_loop inbound s1) /\
  handle_message (Json data) (fst call)
    = (set_log (log (fst call) ++ [LogReceived data]) (fst call), Return tt) /\
  snd r = Raise (CommandTimeout command_type) /\
  _pending_requests (fst r) !! msg_id = None /\
  (forall k, k <> msg_id ->
     _pending_requests (fst r) !! k = _pending_requests (run acts s1) !! k) /\
  handle_message (Json data) (fst r)
    = (set_log (log (fst r) ++ [LogReceived data]) (fst r), Return tt).
Proof.
  intros Hbegin Hin Hwait Hty Hid Hkey call r.
  assert (call = (wait_for_expired future ;; send_command_timeout msg_id command_type)
                   (_receive_loop inbound s1)) as Hcall.
  { subst call. unfold send_command, bind at 1. rewrite Hbegin.
    unfold bind at 1, modify. cbn [fst snd]. by rewrite Hin. }
  assert (forall t,
            let q := (wait_for_expired future ;; send_command_timeout msg_id command_type) t in
            snd q = Raise (CommandTimeout command_type) /\
            _pending_requests (fst q) !! msg_id = None /\
            (forall k, k <> msg_id ->
               _pending_requests (fst q) !! k = _pending_requests t !! k) /\
            state (fst q) = state t /\
            handle_message (Json data) (fst q)
              = (set_log (log (fst q) ++ [LogReceived data]) (fst q), Return tt))
    as Hpath.
  { intros t q.
    destruct (timeout_path t msg_id future command_type) as (Hres & Hpend & Hst & _).
    fold q in Hres, Hpend, Hst.
    split; [exact Hres|].
    split; [rewrite Hpend; apply lookup_delete_eq|].
    split; [intros k Hk; rewrite Hpend; by apply lookup_delete_ne|].
    split; [exact Hst|].
    eapply unknown_result_ignored; eauto.
    eapply find_missing; [exact Hkey|]. rewrite Hpend. apply lookup_delete_eq. }
  destruct (Hpath (_receive_loop inbound s1)) as (C1 & C2 & C3 & C4 & C5).
  destruct (Hpath (run acts s1)) as (R1 & R2 & R3 & _ & R5).
  rewrite <- Hcall in C1, C2, C3, C4, C5.
  repeat split; assumption.
Qed.

Lemma unanswered_command_times_out_witness :
  send_command_begin "get_states" [] (Return tt) online = (waiting, Return (1, 0%nat)) /\
  snd (send_command "get_states" [] (Return tt) [] online)
    = Raise (CommandTimeout "get_states") /\
  _pending_requests (fst (send_command "get_states" [] (Return tt) [] online)) !! 1
    = None.
Proof.
  split; [reflexivity|].
  pose proof (unanswered_command_times_out online waiting "get_states" [] (Return tt)
                1 0%nat [] [DoPing (Return tt)] (answer 1 JNull) (JInt 1)
                eq_refl eq_refl eq_refl eq_refl eq_refl eq_refl) as (H1 & H2 & _).
  split; [exact H1 | exact H2].
Defined.

(** ** Identifiers, and C5 *)

Lemma send_command_begin_Return (s s1 : client) command_type kwargs tx msg_id future :
  send_command_begin command_type kwargs tx s = (s1, Return (msg_id, future)) ->
  state s = CONNECTED /\
  msg_id = _message_id s + 1 /\
  future = length (futures s) /\
  _message_id s1 = msg_id /\
  _pending_requests s1 = <[msg_id := future]> (_pending_requests s) /\
  _event_callbacks s1 = _event_callbacks s /\
  futures s1 = futures s ++ [Pending] /\
  outbox s1 = outbox s ++
    [JObj (dict_merge [("id", JInt msg_id); ("type", JStr command_type)] kwargs)].
Proof.
  unfold send_command_begin, _next_id, new_future, ws_send. run_m.
  destruct (decide (state s = CONNECTED)) as [Hst|]; simpl; [|discriminate].
  destruct (_websocket s); simpl; [|discriminate].
  destruct tx; simpl; [|discriminate].
  intros H. inversion H; subst; clear H. simpl. repeat split; auto.
Qed.

Lemma next_id_value (s : client) :
  _next_id s = (set_message_id (_message_id s + 1) s, Return (_message_id s + 1)).
Proof. reflexivity. Qed.

(** Once a result frame has been matched to a slot, the slot is out of the
    table, whether or not the future could still be resolved. *)
Lemma result_removes_slot (s : client) (data id : json) (k : Z) (future : nat) :
  get data "type" = Return (JStr "result") ->
  get data "id" = Return id ->
  find (_pending_requests s) id = Return (Some (k, future)) ->
  _pending_requests (fst (handle_message (Json data) s))
    = delete k (_pending_requests s).
Proof.
  intros Hty Hid Hfind. unfold handle_message, pending_pop. run_m.
  rewrite Hty, Hid. simpl. rewrite Hfind. simpl.
  destruct (get data "success") as [success|]; simpl; [|reflexivity].
  destruct (truthy success).
  - destruct (get data "result"); simpl; [|reflexivity].
    unfold set_result, resolve. simpl.
    by destruct (futures s !! future) as [[| | |]|].
  - destruct (get data "error"); simpl; [|reflexivity].
    unfold set_exception, resolve. simpl.
    by destruct (futures s !! future) as [[| | |]|].
Qed.

(** X24: the identifier drawn for a command, under which its slot is
    registered, is one more than the counter, so it is greater than every
    identifier drawn before it and is not the key of any request in the
    table; every identifier drawn later, by any method under any schedule,
    is greater still.  A future that is done is never changed again, and a
    result frame takes its slot out of the table as it resolves it, so the
    same frame arriving again finds nothing. *)
Theorem identifiers_strictly_increase
    (s s1 : client) command_type kwargs tx (msg_id : Z) (future : nat) :
  reachable s ->
  send_command_begin command_type kwargs tx s = (s1, Return (msg_id, future)) ->
  _message_id s < msg_id /\
  _message_id s1 = msg_id /\
  (forall k, is_Some (_pending_requests s !! k) -> k < msg_id) /\
  _pending_requests s !! msg_id = None /\
  (forall acts n, snd (_next_id (run acts s1)) = Return n -> msg_id < n) /\
  (forall acts command_type' kwargs' tx' s2 msg_id' future',
     send_command_begin command_type' kwargs' tx' (run acts s1)
       = (s2, Return (msg_id', future')) ->
     msg_id < msg_id' /\ _pending_requests (run acts s1) !! msg_id' = None) /\
  (forall acts f st,
     futures s1 !! f = Some st -> done st = true ->
     futures (run acts s1) !! f = Some st) /\
  (forall t data id k fut,
     get data "type" = Return (JStr "result") ->
     get data "id" = Return id ->
     find (_pending_requests t) id = Return (Some (k, fut)) ->
     let t' := fst (handle_message (Json data) t) in
     _pending_requests t' = delete k (_pending_requests t) /\
     find (_pending_requests t') id = Return None).
Proof.
  intros Hreach Hbegin.
  pose proof (reachable_bounded s Hreach) as [Hp _].
  destruct (send_command_begin_Return _ _ _ _ _ _ _ Hbegin)
    as (_ & Hid & _ & Hid1 & _).
  assert (forall k, is_Some (_pending_requests s !! k) -> k < msg_id) as Hlt.
  { intros k Hk. specialize (Hp k Hk). lia. }
  assert (reachable s1) as Hreach1.
  { replace s1 with (run [DoSendCommand command_type kwargs tx] s);
      [by apply reachable_run|]. simpl. by rewrite Hbegin. }
  split; [lia|]. split; [exact Hid1|]. split; [exact Hlt|].
  split.
  { destruct (_pending_requests s !! msg_id) eqn:E; [|reflexivity].
    assert (msg_id < msg_id) by (apply Hlt; rewrite E; eauto). lia. }
  split.
  { intros acts n Hn. destruct (run_evolves acts s1) as (Hmono & _).
    rewrite next_id_value in Hn. simpl in Hn. inversion Hn. lia. }
  split.
  { intros acts command_type' kwargs' tx' s2 msg_id' future' Hbegin'.
    destruct (send_command_begin_Return _ _ _ _ _ _ _ Hbegin') as (_ & Hid' & _).
    destruct (run_evolves acts s1) as (Hmono & _).
    split; [lia|].
    destruct (reachable_bounded _ (reachable_run acts s1 Hreach1)) as [Hp' _].
    destruct (_pending_requests (run acts s1) !! msg_id') eqn:E; [|reflexivity].
    assert (msg_id' <= _message_id (run acts s1)) by (apply Hp'; rewrite E; eauto).
    lia. }
  split.
  { intros acts f st Hf Hd. destruct (run_evolves acts s1) as (_ & _ & Hset).
    by apply Hset. }
  intros t data id k fut Hty Hgid Hfind t'. subst t'.
  rewrite (result_removes_slot t data id k fut Hty Hgid Hfind).
  split; [reflexivity|].
  apply find_Some in Hfind as [Hkey _].
  eapply find_missing; [exact Hkey | apply lookup_delete_eq].
Qed.

Lemma identifiers_strictly_increase_witness :
  send_command_begin "get_states" [] (Return tt) online = (waiting, Return (1, 0%nat)) /\
  _message_id online < 1.
Proof.
  assert (send_command_begin "get_states" [] (Return tt) online
          = (waiting, Return (1, 0%nat))) as Hbegin by (vm_compute; reflexivity).
  split; [exact Hbegin|].
  assert (reachable online) as Hreach.
  { exists "ws://homeassistant.local:8123/api/websocket", "secret",
      [DoConnect (Return tt) (Return (typed "auth_required")) (Return tt)
         (Return (typed "auth_ok"))].
    vm_compute. reflexivity. }
  exact (proj1 (identifiers_strictly_increase online waiting "get_states" []
                  (Return tt) 1 0%nat Hreach Hbegin)).
Defined.

(** C5 fails on the code where the frame is concerned: a keyword argument
    named [id] replaces the identifier in the envelope.  In the state a run
    reaches by connecting and sending [get_states], request 1 is in the
    table with its future pending.  [send_command("x", id=1)] then draws
    identifier 2 and registers its slot under 2, but the frame it sends
    carries identifier 1, that of the request still pending.  The answer to
    that frame, which echoes 1, resolves the future of the first request;
    the second call times out. *)
Lemma keyword_id_reuses_pending_identifier :
  let second := send_command_begin "x" [("id", JInt 1)] (Return tt) waiting in
  let call := send_command "x" [("id", JInt 1)] (Return tt)
                [Message (Json (answer 1 (JStr "for x")))] waiting in
  reachable waiting /\
  _pending_requests waiting !! 1 = Some 0%nat /\
  futures waiting !! 0%nat = Some Pending /\
  snd second = Return (2, 1%nat) /\
  last (outbox (fst second)) = Some (JObj [("id", JInt 1); ("type", JStr "x")]) /\
  _pending_requests (fst second) !! 1 = Some 0%nat /\
  _pending_requests (fst second) !! 2 = Some 1%nat /\
  snd call = Raise (CommandTimeout "x") /\
  futures (fst call) !! 0%nat = Some (Result (JStr "for x")) /\
  futures (fst call) !! 1%nat = Some Cancelled.
Proof.
  split.
  - exists "ws://homeassistant.local:8123/api/websocket", "secret",
      [DoConnect (Return tt) (Return (typed "auth_required")) (Return tt)
         (Return (typed "auth_ok"));
       DoSendCommand "get_states" [] (Return tt)].
    vm_compute. reflexivity.
  - vm_compute. repeat split; reflexivity.
Qed.

(** ** Registering a slot *)

(** X25: registering a slot never fails.  The table entry of the new
    identifier is assigned without a check and no other entry is touched;
    there is no DuplicateIdentifier error.  In a state that a run of the
    client's methods leads to, the identifier is not yet registered, so no
    slot is ever replaced. *)
Theorem registration_is_assignment (s : client) command_type kwargs tx :
  state s = CONNECTED ->
  let msg_id := _message_id s + 1 in
  let future := length (futures s) in
  let r := send_command_begin command_type kwargs tx s in
  _pending_requests (fst r) !! msg_id = Some future /\
  futures (fst r) !! future = Some Pending /\
  (forall k, k <> msg_id ->
     _pending_requests (fst r) !! k = _pending_requests s !! k) /\
  (forall ws, _websocket s = Some ws -> tx = Return tt ->
     snd r = Return (msg_id, future)) /\
  (reachable s -> _pending_requests s !! msg_id = None).
Proof.
  intros Hst msg_id future r.
  assert (_pending_requests (fst r)
            = <[msg_id := future]> (_pending_requests s) /\
          futures (fst r) = futures s ++ [Pending]) as [Hp Hf].
  { subst r. unfold send_command_begin, _next_id, new_future, ws_send. run_m.
    destruct (decide (state s = CONNECTED)); [|contradiction]. simpl.
    destruct (_websocket s); simpl; [|by split].
    destruct tx; simpl; by split. }
  split; [rewrite Hp; apply lookup_insert_eq|].
  split; [rewrite Hf; subst future; by rewrite lookup_app_r, Nat.sub_diag|].
  split; [intros k Hk; rewrite Hp; by apply lookup_insert_ne|].
  split.
  - intros ws Hws ->. subst r.
    unfold send_command_begin, _next_id, new_future, ws_send. run_m.
    destruct (decide (state s = CONNECTED)); [|contradiction]. simpl.
    by rewrite Hws.
  - intros Hreach. destruct (reachable_bounded s Hreach) as [Hb _].
    destruct (_pending_requests s !! msg_id) eqn:E; [|reflexivity].
    assert (msg_id <= _message_id s) by (apply Hb; rewrite E; eauto).
    subst msg_id. lia.
Qed.

Lemma registration_is_assignment_witness :
  state online = CONNECTED /\
  _pending_requests waiting !! 1 = Some 0%nat.
Proof.
  split; [reflexivity|].
  apply (registration_is_assignment online "get_states" [] (Return tt)). reflexivity.
Defined.

(** ** C8: the handshake *)

Lemma announces_inv (r : py frame) (ty : string) :
  announces r ty = true ->
  exists fields, r = Return (Json (JObj fields)) /\
    str_eq (default JNull (assoc "type" fields)) ty = true.
Proof.
  unfold announces. destruct r as [[raw|data]|e]; try discriminate.
  destruct data; simpl; try discriminate. eauto.
Qed.

(** C8: [connect] returns true exactly when the connection is made, the first
    frame received is an auth-challenge, the credential is sent, and the next
    frame received is an auth-success; the state is then Connected and the
    receive task is running.  When a first frame arrives that is not an
    auth-challenge, or a second one that is not an auth-success (such as
    auth_invalid), [connect] returns false with the state Disconnected; a
    well-formed frame of the wrong type is reported as UnexpectedHandshake,
    respectively AuthenticationFailed.  Whenever [connect] returns false the
    state is Disconnected. *)
Theorem connect_handshake (s : client) (dial : py unit) (recv1 : py frame)
    (tx : py unit) (recv2 : py frame) :
  let r := connect dial recv1 tx recv2 s in
  (snd r = Return true <->
     dial = Return tt /\ announces recv1 "auth_required" = true /\
     tx = Return tt /\ announces recv2 "auth_ok" = true) /\
  (snd r = Return true ->
     state (fst r) = CONNECTED /\ _receive_task (fst r) = Some Running) /\
  (forall first,
     dial = Return tt -> recv1 = Return first ->
     announces recv1 "auth_required" = false ->
     snd r = Return false /\ state (fst r) = DISCONNECTED /\
     forall fields, first = Json (JObj fields) ->
       last (log (fst r)) = Some (LogConnectionFailed (UnexpectedHandshake (JObj fields)))) /\
  (forall second,
     dial = Return tt -> announces recv1 "auth_required" = true ->
     tx = Return tt -> recv2 = Return second ->
     announces recv2 "auth_ok" = false ->
     snd r = Return false /\ state (fst r) = DISCONNECTED /\
     forall fields, second = Json (JObj fields) ->
       last (log (fst r)) = Some (LogConnectionFailed (AuthenticationFailed (JObj fields)))) /\
  (snd r = Return false -> state (fst r) = DISCONNECTED).
Proof.
  intros r. subst r. unfold connect, ws_send, announces. run_m.
  destruct dial as [[]|e1]; simpl;
    [destruct recv1 as [[raw|data1]|e2]; simpl;
      [|destruct data1; simpl;
         try (destruct (str_eq (default JNull (assoc "type" fields)) "auth_required")
                eqn:E1; simpl;
           [destruct tx as [[]|e3]; simpl;
             [destruct recv2 as [[raw2|data2]|e4]; simpl;
               [|destruct data2; simpl;
                 try (destruct (str_eq (default JNull (assoc "type" fields0)) "auth_ok")
                        eqn:E2; simpl)
               |destruct (is_exception e4) eqn:X4; simpl]
             |destruct (is_exception e3) eqn:X3; simpl]
           |])
      |destruct (is_exception e2) eqn:X2; simpl]
    |destruct (is_exception e1) eqn:X1; simpl].
  all: repeat split; intros; simpl in *; try discriminate; try congruence;
    repeat match goal with H : _ /\ _ |- _ => destruct H end;
    try discriminate; try congruence.
  all: rewrite last_snoc; congruence.
Qed.

Lemma connect_handshake_witness :
  snd (connect (Return tt) (Return (typed "auth_required")) (Return tt)
         (Return (typed "auth_invalid")) fresh) = Return false /\
  state online = CONNECTED.
Proof.
  split.
  - apply (connect_handshake fresh (Return tt) (Return (typed "auth_required"))
             (Return tt) (Return (typed "auth_invalid"))) with (second := typed "auth_invalid");
      reflexivity.
  - apply (connect_handshake fresh (Return tt) (Return (typed "auth_required"))
             (Return tt) (Return (typed "auth_ok"))).
    apply (connect_handshake fresh (Return tt) (Return (typed "auth_required"))
             (Return tt) (Return (typed "auth_ok"))).
    repeat split; reflexivity.
Defined.

(** ** C9: subscription callbacks *)





(** ** C10: keepalive *)

(** C10: [ping] draws the next identifier, so the counter goes up by one, and
    returns without suspending.  It leaves the correlation table, the
    futures, the subscription registry and the connection state as they
    were; with a socket that accepts the frame, exactly the keepalive frame
    carrying the new identifier is sent.  An inbound pong frame returns
    normally and changes nothing but the debug log. *)
Theorem ping_registers_nothing (s : client) (tx : py unit) :
  let r := ping tx s in
  _message_id (fst r) = _message_id s + 1 /\
  _pending_requests (fst r) = _pending_requests s /\
  futures (fst r) = futures s /\
  _event_callbacks (fst r) = _event_callbacks s /\
  state (fst r) = state s /\
  (forall ws, _websocket s = Some ws -> tx = Return tt ->
     snd r = Return tt /\
     outbox (fst r)
       = outbox s ++ [JObj [("id", JInt (_message_id s + 1)); ("type", JStr "ping")]]) /\
  (forall t data,
     get data "type" = Return (JStr "pong") ->
     handle_message (Json data) t
       = (set_log (log t ++ [LogReceived data]) t, Return tt) /\
     levelno (LogReceived data) = DEBUG).
Proof.
  intros r. subst r. unfold ping, _next_id, ws_send. run_m.
  assert (forall t data, get data "type" = Return (JStr "pong") ->
            handle_message (Json data) t
              = (set_log (log t ++ [LogReceived data]) t, Return tt)) as Hpong.
  { intros t data Hty. unfold handle_message. run_m. rewrite Hty. simpl.
    destruct data; try discriminate. reflexivity. }
  destruct (_websocket s) as [ws|]; simpl.
  - destruct tx as [[]|e]; simpl; repeat split; auto; intros; try discriminate;
      auto.
  - repeat split; auto; intros; try discriminate; auto.
Qed.

(** ** C6: the identifier of a subscription *)

#[local] Instance quiet_preorder : PreOrder quiet.
Proof.
  split.
  - intros s. by repeat split.
  - intros a b c (H1 & H2 & H3 & H4) (H5 & H6 & H7 & H8). unfold quiet.
    by rewrite H5, H6, H7, H8.
Qed.

Lemma quiet_logger r : steps quiet (logger r).
Proof. intros s. by repeat split. Qed.

Lemma quiet_pending_pop k : steps quiet (pending_pop k).
Proof. intros s. by repeat split. Qed.

Lemma quiet_resolve future outcome : steps quiet (resolve future outcome).
Proof.
  intros s. unfold resolve.
  destruct (futures s !! future) as [[| | |]|]; by repeat split.
Qed.

Lemma quiet_create_task callback data : steps quiet (create_task callback data).
Proof. intros s. by repeat split. Qed.

Lemma quiet_set_state v : steps quiet (modify (set_state v)).
Proof. intros s. by repeat split. Qed.

#[local] Hint Resolve quiet_logger quiet_pending_pop quiet_resolve
  quiet_create_task quiet_set_state : evolve.

Lemma quiet_handle_message message : steps quiet (handle_message message).
Proof. unfold handle_message, set_result, set_exception. stepwise_in quiet. Qed.

Lemma quiet_receive_except e : steps quiet (receive_except e).
Proof. unfold receive_except. destruct e; stepwise_in quiet. Qed.

Lemma quiet_finished s : quiet s (set_receive_task (Some Finished) s).
Proof. by repeat split. Qed.

Lemma quiet_receive_step ev s : quiet s (receive_step ev s).
Proof.
  unfold receive_step. destruct (_receive_task s) as [[|]|]; try reflexivity.
  destruct ev as [message| |e].
  - pose proof (quiet_handle_message message s) as H.
    destruct (handle_message message s) as [s' [a|e]]; simpl in *; [exact H|].
    etransitivity; [exact H|].
    etransitivity; [apply quiet_receive_except | apply quiet_finished].
  - apply quiet_finished.
  - etransitivity; [apply quiet_receive_except | apply quiet_finished].
Qed.

Lemma quiet_receive_loop inbound s : quiet s (_receive_loop inbound s).
Proof.
  unfold _receive_loop. apply (steps_fold quiet). intros ev t. apply quiet_receive_step.
Qed.

Lemma subscribe_command_id (event_type : option string) (msg_id : Z) :
  get (JObj (dict_merge [("id", JInt msg_id); ("type", JStr "subscribe_events")]
               (subscribe_command event_type))) "id" = Return (JInt msg_id).
Proof.
  unfold subscribe_command. destruct event_type as [e|]; [|reflexivity].
  by destruct (String.eqb e "").
Qed.

Lemma subscribe_events_finish_value (s : client) event_type callback :
  let r := subscribe_events_finish event_type callback s in
  snd r = Return (_message_id s + 1) /\
  _message_id (fst r) = _message_id s + 1 /\
  outbox (fst r) = outbox s /\
  _pending_requests (fst r) = _pending_requests s /\
  forall cb, callback = Some cb ->
    _event_callbacks (fst r) !! (_message_id s + 1) = Some cb.
Proof.
  unfold subscribe_events_finish, _next_id. run_m.
  destruct callback as [cb|]; simpl; repeat split; auto; try discriminate.
  intros cb' H. inversion H; subst. apply lookup_insert_eq.
Qed.

(** What a matched result frame does, by the state of the future it finds. *)
Lemma result_frame_matched (s : client) (data id : json) (k : Z) (future : nat) :
  get data "type" = Return (JStr "result") ->
  get data "id" = Return id ->
  find (_pending_requests s) id = Return (Some (k, future)) ->
  exists success result error,
    get data "success" = Return success /\
    get data "result" = Return result /\
    get data "error" = Return error /\
    let popped :=
      set_pending_requests (delete k (_pending_requests s))
        (set_log (log s ++ [LogReceived data]) s) in
    let outcome :=
      if truthy success then Result result else Failed (ServiceError error) in
    handle_message (Json data) s
    = match futures s !! future with
      | Some Pending => (set_futures (<[future := outcome]> (futures s)) popped, Return tt)
      | _ => (popped, Raise InvalidStateError)
      end.
Proof.
  intros Hty Hid Hfind. destruct data; try discriminate.
  eexists _, _, _. split; [reflexivity|]. split; [reflexivity|]. split; [reflexivity|].
  unfold handle_message, pending_pop, set_result, set_exception, resolve. run_m.
  simpl in Hty, Hid. inversion Hty as [Hty']. inversion Hid as [Hid'].
  rewrite Hty'. simpl. rewrite Hid', Hfind. simpl.
  destruct (truthy (default JNull (assoc "success" fields))); simpl;
    by destruct (futures s !! future) as [[| | |]|].
Qed.

Lemma insert_last_future (h : list Future) (outcome : Future) :
  <[length h := outcome]> (h ++ [Pending]) = h ++ [outcome].
Proof.
  rewrite insert_app_r_alt by lia. by rewrite Nat.sub_diag.
Qed.

Lemma lookup_last_future (h : list Future) (x : Future) :
  (h ++ [x]) !! length h = Some x.
Proof. rewrite lookup_app_r by lia. by rewrite Nat.sub_diag. Qed.

Lemma send_command_begin_task (s s1 : client) command_type kwargs tx msg_id future :
  send_command_begin command_type kwargs tx s = (s1, Return (msg_id, future)) ->
  _receive_task s1 = _receive_task s.
Proof.
  unfold send_command_begin, _next_id, new_future, ws_send. run_m.
  destruct (decide (state s = CONNECTED)); simpl; [|discriminate].
  destruct (_websocket s); simpl; [|discriminate].
  destruct tx; simpl; [|discriminate].
  intros H. by inversion H.
Qed.

(** A command whose answer arrives with a truthy [success], run to its end. *)
Lemma send_command_answered (s s1 : client) command_type kwargs tx
    (msg_id : Z) (future : nat) (data id success : json) :
  send_command_begin command_type kwargs tx s = (s1, Return (msg_id, future)) ->
  _receive_task s = Some Running ->
  get data "type" = Return (JStr "result") ->
  get data "id" = Return id ->
  int_key id = Return (Some msg_id) ->
  get data "success" = Return success ->
  truthy success = true ->
  exists s2 result,
    send_command command_type kwargs tx [Message (Json data)] s = (s2, Return result) /\
    get data "result" = Return result /\
    _message_id s2 = msg_id /\
    outbox s2 = outbox s1 /\
    _event_callbacks s2 = _event_callbacks s.
Proof.
  intros Hbegin Hrun Hty Hid Hkey Hsucc Htrue.
  destruct (send_command_begin_Return _ _ _ _ _ _ _ Hbegin)
    as (_ & _ & Hfut & Hid1 & Hp1 & Hcb & Hf1 & _).
  pose proof (send_command_begin_task _ _ _ _ _ _ _ Hbegin) as Htask.
  assert (find (_pending_requests s1) id = Return (Some (msg_id, future))) as Hfind.
  { unfold find. by rewrite Hkey, Hp1, lookup_insert_eq. }
  destruct (result_frame_matched s1 data id msg_id future Hty Hid Hfind)
    as (success' & result & error & Hs' & Hr' & _ & Hh).
  rewrite Hsucc in Hs'. inversion Hs'; subst success'.
  cbv zeta in Hh. rewrite Htrue in Hh.
  assert (futures s1 !! future = Some Pending) as Hpending
    by (rewrite Hf1, Hfut; apply lookup_last_future).
  rewrite Hpending in Hh.
  destruct (quiet_receive_loop [Message (Json data)] s1) as (Hq1 & Hq2 & Hq3 & _).
  exists (_receive_loop [Message (Json data)] s1), result.
  split; [|rewrite Hq1, Hq2, Hq3; auto].
  unfold send_command, bind at 1. rewrite Hbegin.
  unfold bind at 1, modify. cbn [fst snd].
  assert (await_future future (_receive_loop [Message (Json data)] s1)
          = Some (Return result)) as ->; [|reflexivity].
  unfold _receive_loop. cbn [fold_left]. unfold receive_step.
  rewrite Htask, Hrun, Hh. unfold await_future. cbn [futures set_futures].
  by rewrite Hf1, Hfut, insert_last_future, lookup_last_future.
Qed.

(** C6: [subscribe_events] first sends the subscribe command, under the
    identifier [send_command] draws for it, and only once that call has
    returned draws a second identifier from the same counter, under which the
    callback is registered and which it returns.  Under any schedule the
    second identifier is the counter's next value and is greater than, hence
    different from, the identifier the command was sent under.  With nothing
    else running but the receive task, it is that identifier plus one: when
    the receive task is running and the answer to the command arrives,
    [subscribe_events] returns the command's identifier plus one and has
    registered the callback under it. *)
Theorem subscription_identifier_follows_command
    (s s1 : client) (event_type : option string) (callback : option Callable)
    (tx : py unit) (sent_id : Z) (future : nat) :
  send_command_begin "subscribe_events" (subscribe_command event_type) tx s
    = (s1, Return (sent_id, future)) ->
  let message :=
    JObj (dict_merge [("id", JInt sent_id); ("type", JStr "subscribe_events")]
            (subscribe_command event_type)) in
  sent_id = _message_id s + 1 /\
  outbox s1 = outbox s ++ [message] /\
  get message "id" = Return (JInt sent_id) /\
  (forall acts,
     let r := subscribe_events_finish event_type callback (run acts s1) in
     let subscription_id := _message_id (run acts s1) + 1 in
     snd r = Return subscription_id /\
     sent_id < subscription_id /\
     subscription_id <> sent_id /\
     _message_id (fst r) = subscription_id /\
     forall cb, callback = Some cb ->
       _event_callbacks (fst r) !! subscription_id = Some cb) /\
  (forall inbound s' subscription_id,
     subscribe_events event_type callback tx inbound s = (s', Return subscription_id) ->
     subscription_id = sent_id + 1 /\
     _message_id s' = subscription_id /\
     outbox s' = outbox s ++ [message] /\
     forall cb, callback = Some cb ->
       _event_callbacks s' !! subscription_id = Some cb) /\
  (forall data id success,
     _receive_task s = Some Running ->
     get data "type" = Return (JStr "result") ->
     get data "id" = Return id ->
     int_key id = Return (Some sent_id) ->
     get data "success" = Return success ->
     truthy success = true ->
     let r := subscribe_events event_type callback tx [Message (Json data)] s in
     snd r = Return (sent_id + 1) /\
     sent_id + 1 <> sent_id /\
     _message_id (fst r) = sent_id + 1 /\
     outbox (fst r) = outbox s ++ [message] /\
     (forall cb, callback = Some cb ->
        _event_callbacks (fst r) !! (sent_id + 1) = Some cb) /\
     (forall k, k <> sent_id + 1 ->
        _event_callbacks (fst r) !! k = _event_callbacks s !! k)).
Proof.
  intros Hbegin message.
  destruct (send_command_begin_Return _ _ _ _ _ _ _ Hbegin)
    as (_ & Hid & _ & Hid1 & _ & _ & _ & Hout).
  split; [exact Hid|]. split; [exact Hout|].
  split; [apply subscribe_command_id|].
  split; [|split].
  - intros acts.
    pose proof (subscribe_events_finish_value (run acts s1) event_type callback) as Hfin.
    cbv zeta in *. destruct Hfin as (Hv & Hc & _ & _ & Hcb).
    destruct (run_evolves acts s1) as (Hmono & _).
    split; [exact Hv|]. split; [lia|]. split; [lia|]. split; [exact Hc|]. exact Hcb.
  - intros inbound s' subscription_id Hsub.
    unfold subscribe_events, send_command in Hsub.
    unfold bind at 1 2 in Hsub. rewrite Hbegin in Hsub.
    unfold bind at 1, modify in Hsub. simpl in Hsub.
    destruct (quiet_receive_loop inbound s1) as (Hq1 & Hq2 & _).
    destruct (await_future future (_receive_loop inbound s1)) as [[v|e]|];
      simpl in Hsub; try discriminate.
    pose proof (subscribe_events_finish_value (_receive_loop inbound s1)
                  event_type callback) as Hfin.
    cbv zeta in Hfin. rewrite Hsub in Hfin. simpl in Hfin.
    destruct Hfin as (Hv & Hc & Ho & _ & Hcb).
    rewrite Hq1, Hid1 in *. inversion Hv; subst subscription_id.
    split; [reflexivity|]. split; [exact Hc|].
    split; [by rewrite Ho, Hq2, Hout|]. exact Hcb.
  - intros data id success Hrun Hty Hgid Hkey Hsucc Htrue r.
    destruct (send_command_answered s s1 "subscribe_events"
                (subscribe_command event_type) tx sent_id future data id success
                Hbegin Hrun Hty Hgid Hkey Hsucc Htrue)
      as (s2 & result & Hsend & _ & Hm2 & Ho2 & Hc2).
    destruct r as [s' v] eqn:R. subst r.
    unfold subscribe_events, bind in R. rewrite Hsend in R.
    unfold subscribe_events_finish, _next_id in R. run_m.
    destruct callback as [cb|]; simpl in R; inversion R; subst s' v; simpl;
      rewrite Hm2, Ho2, Hc2, Hout.
    + split; [reflexivity|]. split; [lia|]. split; [reflexivity|].
      split; [reflexivity|]. split.
      * intros cb' H. inversion H; subst. apply lookup_insert_eq.
      * intros k Hk. by apply lookup_insert_ne.
    + split; [reflexivity|]. split; [lia|]. split; [reflexivity|].
      split; [reflexivity|]. split; [discriminate | reflexivity].
Qed.

Lemma subscription_identifier_follows_command_witness :
  let cb : Callable := fun _ => Return tt in
  let r := subscribe_events (Some "state_changed") (Some cb) (Return tt)
             [Message (Json (answer 1 JNull))] online in
  send_command_begin "subscribe_events" (subscribe_command (Some "state_changed"))
    (Return tt) online
  = (fst (send_command_begin "subscribe_events"
            (subscribe_command (Some "state_changed")) (Return tt) online),
     Return (1, 0%nat)) /\
  _receive_task online = Some Running /\
  snd r = Return 2 /\
  _event_callbacks (fst r) !! 2 = Some cb.
Proof.
  intros cb r.
  assert (send_command_begin "subscribe_events"
            (subscribe_command (Some "state_changed")) (Return tt) online
          = (fst (send_command_begin "subscribe_events"
                    (subscribe_command (Some "state_changed")) (Return tt) online),
             Return (1, 0%nat))) as Hbegin by (vm_compute; reflexivity).
  split; [exact Hbegin|]. split; [reflexivity|].
  destruct (subscription_identifier_follows_command online _
              (Some "state_changed") (Some cb) (Return tt) 1 0%nat Hbegin)
    as (_ & _ & _ & _ & _ & H).
  destruct (H (answer 1 JNull) (JInt 1) (JBool true)
              eq_refl eq_refl eq_refl eq_refl eq_refl eq_refl)
    as (Hv & _ & _ & _ & Hcb & _).
  split; [exact Hv|]. exact (Hcb cb eq_refl).
Defined.

(** The scenario of the specification, run: the subscribe command goes out
    under identifier 1, the server confirms it, and the callback is
    registered under identifier 2. *)
Example subscribe_then_register :
  let r := subscribe_events (Some "state_changed") (Some (fun _ => Return tt))
             (Return tt) [Message (Json (answer 1 JNull))] online in
  snd r = Return 2 /\
  last (outbox (fst r))
    = Some (JObj [("id", JInt 1); ("type", JStr "subscribe_events");
                  ("event_type", JStr "state_changed")]) /\
  (fst <$> map_to_list (_event_callbacks (fst r))) = [2].
Proof. vm_compute. repeat split; reflexivity. Qed.

(** * Further properties of the client *)

(** ** A command and its answer *)

Lemma send_command_begin_connected (s : client) command_type kwargs (ws : socket) :
  state s = CONNECTED -> _websocket s = Some ws ->
  send_command_begin command_type kwargs (Return tt) s
  = (set_outbox (outbox s ++
       [JObj (dict_merge [("id", JInt (_message_id s + 1)); ("type", JStr command_type)]
                kwargs)])
      (set_log (log s ++
         [LogSending (JObj (dict_merge
            [("id", JInt (_message_id s + 1)); ("type", JStr command_type)] kwargs))])
        (set_pending_requests
           (<[_message_id s + 1 := length (futures s)]> (_pending_requests s))
           (set_futures (futures s ++ [Pending])
              (set_message_id (_message_id s + 1) s)))),
     Return (_message_id s + 1, length (futures s))).
Proof.
  intros Hst Hws. unfold send_command_begin, _next_id, new_future, ws_send. run_m.
  destruct (decide (state s = CONNECTED)); [|contradiction]. simpl.
  by rewrite Hws.
Qed.

(** X1: on a connected client whose receive task is running, a command whose
    result frame arrives with a truthy [success] returns the frame's
    [result]; a falsy [success] makes the call raise ServiceError with the
    frame's [error].  Either way the slot is out of the table again, the
    state is still Connected and the receive task still running. *)
Theorem answered_command_returns
    (s : client) command_type kwargs (ws : socket) (data id success result error : json) :
  state s = CONNECTED ->
  _websocket s = Some ws ->
  _receive_task s = Some Running ->
  get data "type" = Return (JStr "result") ->
  get data "id" = Return id ->
  int_key id = Return (Some (_message_id s + 1)) ->
  get data "success" = Return success ->
  get data "result" = Return result ->
  get data "error" = Return error ->
  let r := send_command command_type kwargs (Return tt) [Message (Json data)] s in
  snd r = (if truthy success then Return result else Raise (ServiceError error)) /\
  _pending_requests (fst r) = delete (_message_id s + 1) (_pending_requests s) /\
  futures (fst r)
    = futures s ++ [if truthy success then Result result else Failed (ServiceError error)] /\
  state (fst r) = CONNECTED /\
  _receive_task (fst r) = Some Running /\
  _message_id (fst r) = _message_id s + 1.
Proof.
  intros Hst Hws Hrun Hty Hid Hkey Hsucc Hres Herr r.
  destruct r as [s' v] eqn:E. subst r.
  unfold send_command, bind at 1 in E.
  rewrite (send_command_begin_connected s command_type kwargs ws Hst Hws) in E.
  unfold bind at 1, modify in E. simpl in E.
  set (s1 := set_outbox _ _) in E.
  assert (find (_pending_requests s1) id
          = Return (Some (_message_id s + 1, length (futures s)))) as Hfind.
  { unfold find. rewrite Hkey. subst s1. simpl. by rewrite lookup_insert_eq. }
  destruct (result_frame_matched s1 data id _ _ Hty Hid Hfind)
    as (success' & result' & error' & Hs' & Hr' & He' & Hh).
  rewrite Hsucc in Hs'. rewrite Hres in Hr'. rewrite Herr in He'.
  inversion Hs'; inversion Hr'; inversion He'; subst success' result' error'.
  cbv zeta in Hh.
  assert (futures s1 = futures s ++ [Pending]) as Hf1 by (by subst s1).
  assert (_pending_requests s1
          = <[_message_id s + 1 := length (futures s)]> (_pending_requests s))
    as Hp1 by (by subst s1).
  assert (_receive_task s1 = Some Running) as Hrun1 by (subst s1; simpl; congruence).
  rewrite Hf1, lookup_last_future, insert_last_future, Hp1, delete_insert_eq in Hh.
  unfold receive_step in E. rewrite Hrun1, Hh in E.
  unfold await_future in E. simpl in E. rewrite lookup_last_future in E.
  destruct (truthy success); inversion E; subst s' v; simpl; subst s1; simpl;
    repeat split; auto.
Qed.

Lemma answered_command_returns_witness :
  state online = CONNECTED /\
  snd (send_command "get_states" [] (Return tt)
         [Message (Json (answer 1 (JArr [JStr "light.kitchen"])))] online)
    = Return (JArr [JStr "light.kitchen"]).
Proof.
  split; [reflexivity|].
  apply (answered_command_returns online "get_states" []
           (Socket "ws://homeassistant.local:8123/api/websocket")
           (answer 1 (JArr [JStr "light.kitchen"])) (JInt 1) (JBool true)
           (JArr [JStr "light.kitchen"]) JNull); reflexivity.
Defined.

(** ** A send that fails *)

(** X2: when the socket refuses the frame, [send_command] raises what the
    socket raised, whatever arrives afterwards.  By then the identifier has
    been drawn and the slot registered: the slot stays in the table with its
    future pending, and nothing was sent. *)
Theorem failed_send_leaves_slot
    (s : client) command_type kwargs (ws : socket) (e : exn)
    (inbound : list stream_event) :
  state s = CONNECTED ->
  _websocket s = Some ws ->
  let r := send_command command_type kwargs (Raise e) inbound s in
  snd r = Raise e /\
  _message_id (fst r) = _message_id s + 1 /\
  _pending_requests (fst r) !! (_message_id s + 1) = Some (length (futures s)) /\
  futures (fst r) !! length (futures s) = Some Pending /\
  outbox (fst r) = outbox s /\
  state (fst r) = CONNECTED.
Proof.
  intros Hst Hws r. destruct r as [s' v] eqn:E. subst r.
  unfold send_command, bind at 1, send_command_begin, _next_id, new_future, ws_send in E.
  run_m. destruct (decide (state s = CONNECTED)); [|contradiction]. simpl in E.
  rewrite Hws in E. simpl in E. inversion E; subst s' v; simpl.
  split; [reflexivity|]. split; [reflexivity|].
  split; [apply lookup_insert_eq|]. split; [apply lookup_last_future|]. auto.
Qed.

Lemma failed_send_leaves_slot_witness :
  state online = CONNECTED /\
  snd (send_command "get_states" [] (Raise (TransportError "closed")) [] online)
    = Raise (TransportError "closed").
Proof.
  split; [reflexivity|].
  apply (failed_send_leaves_slot online "get_states" []
           (Socket "ws://homeassistant.local:8123/api/websocket")
           (TransportError "closed") []); reflexivity.
Defined.

(** ** The frame a command is sent in *)

Lemma assoc_setitem_eq k v d : assoc k (setitem k v d) = Some v.
Proof.
  induction d as [|[k' v'] d IH]; simpl.
  - by rewrite String.eqb_refl.
  - destruct (String.eqb k k') eqn:E; simpl; rewrite ?String.eqb_refl, ?E; auto.
Qed.

Lemma assoc_setitem_ne k k' v d : k <> k' -> assoc k' (setitem k v d) = assoc k' d.
Proof.
  intros Hne. induction d as [|[k0 v0] d IH]; simpl.
  - destruct (String.eqb k' k) eqn:E; [|reflexivity].
    apply String.eqb_eq in E. congruence.
  - destruct (String.eqb k k0) eqn:E; simpl.
    + apply String.eqb_eq in E. subst k0.
      destruct (String.eqb k' k) eqn:E'; [|reflexivity].
      apply String.eqb_eq in E'. congruence.
    + by rewrite IH.
Qed.

Lemma assoc_dict_merge_absent k base kwargs :
  assoc k kwargs = None -> assoc k (dict_merge base kwargs) = assoc k base.
Proof.
  unfold dict_merge. revert base.
  induction kwargs as [|[k' v'] kwargs IH]; intros base Hk; simpl in *; [reflexivity|].
  destruct (String.eqb k k') eqn:E; [discriminate|].
  rewrite IH by exact Hk. apply assoc_setitem_ne.
  intros ->. by rewrite String.eqb_refl in E.
Qed.

Lemma assoc_dict_merge_present k v base kwargs :
  NoDup kwargs.*1 -> assoc k kwargs = Some v ->
  assoc k (dict_merge base kwargs) = Some v.
Proof.
  unfold dict_merge. revert base.
  induction kwargs as [|[k' v'] kwargs IH]; intros base Hnd Hk; simpl in *;
    [discriminate|].
  apply NoDup_cons in Hnd as [Hnotin Hnd].
  destruct (String.eqb k k') eqn:E.
  - apply String.eqb_eq in E. subst k'. inversion Hk; subst v'.
    change (assoc k (dict_merge (setitem k v base) kwargs) = Some v).
    rewrite assoc_dict_merge_absent; [apply assoc_setitem_eq|].
    clear -Hnotin. induction kwargs as [|[k0 v0] kwargs IH]; simpl; [reflexivity|].
    destruct (String.eqb k k0) eqn:E.
    + apply String.eqb_eq in E. subst k0. exfalso. apply Hnotin. simpl. by left.
    + apply IH. intros H. apply Hnotin. simpl. by right.
  - by apply IH.
Qed.

(** X3: keyword arguments are merged over the envelope.  With distinct
    keywords, every keyword reaches the frame with its value; when none is
    named [id] or [type] the frame carries the identifier the slot is
    registered under and the command type; a keyword named [id] replaces the
    identifier in the frame, while the slot is still registered under the
    identifier drawn from the counter. *)
Theorem command_frame_fields
    (s : client) command_type (kwargs : list (string * json)) (ws : socket) :
  state s = CONNECTED ->
  _websocket s = Some ws ->
  NoDup kwargs.*1 ->
  let msg_id := _message_id s + 1 in
  let r := send_command_begin command_type kwargs (Return tt) s in
  exists message,
    outbox (fst r) = outbox s ++ [message] /\
    is_Some (_pending_requests (fst r) !! msg_id) /\
    (forall k v, assoc k kwargs = Some v -> get message k = Return v) /\
    (assoc "id" kwargs = None -> get message "id" = Return (JInt msg_id)) /\
    (assoc "type" kwargs = None -> get message "type" = Return (JStr command_type)).
Proof.
  intros Hst Hws Hnd msg_id r. subst r msg_id.
  rewrite (send_command_begin_connected s command_type kwargs ws Hst Hws).
  set (d := dict_merge _ kwargs).
  assert (forall k, assoc k kwargs = None ->
            assoc k d = assoc k [("id", JInt (_message_id s + 1));
                                 ("type", JStr command_type)]) as Habsent.
  { intros k Hk. by apply assoc_dict_merge_absent. }
  assert (forall k v, assoc k kwargs = Some v -> assoc k d = Some v) as Hpresent.
  { intros k v Hk. by apply assoc_dict_merge_present. }
  clearbody d. simpl.
  exists (JObj d). split; [reflexivity|].
  split; [rewrite lookup_insert_eq; eauto|].
  split; [|split].
  - intros k v Hk. unfold get. by rewrite (Hpresent k v Hk).
  - intros Hk. unfold get. by rewrite (Habsent "id" Hk).
  - intros Hk. unfold get. by rewrite (Habsent "type" Hk).
Qed.

Lemma command_frame_fields_witness :
  state online = CONNECTED /\
  NoDup [("id", JInt 7)].*1 /\
  exists message,
    outbox (fst (send_command_begin "x" [("id", JInt 7)] (Return tt) online))
      = outbox online ++ [message] /\
    get message "id" = Return (JInt 7) /\
    is_Some (_pending_requests
               (fst (send_command_begin "x" [("id", JInt 7)] (Return tt) online)) !! 1).
Proof.
  split; [reflexivity|].
  assert (NoDup [("id", JInt 7)].*1) as Hnd.
  { simpl. apply NoDup_singleton. }
  split; [exact Hnd|].
  destruct (command_frame_fields online "x" [("id", JInt 7)]
              (Socket "ws://homeassistant.local:8123/api/websocket")
              eq_refl eq_refl Hnd) as (message & Hout & Hreg & Hkw & _).
  exists message. split; [exact Hout|]. split; [|exact Hreg].
  apply Hkw. reflexivity.
Defined.

(** ** Events are queued in arrival order *)

Lemma event_frame_step (s : client) (k : Z) (payload : json) :
  _receive_task s = Some Running ->
  receive_step (Message (event_frame k payload)) s
  = set_spawned
      (spawned s ++ match delivery (_event_callbacks s) (k, payload) with
                    | Some t => [t]
                    | None => []
                    end)
      (set_log (log s ++ [LogReceived (JObj [("id", JInt k); ("type", JStr "event");
                                              ("event", payload)])]) s).
Proof.
  intros Hrun. unfold receive_step, event_frame. rewrite Hrun.
  unfold handle_message, create_task, find, delivery. run_m.
  destruct (_event_callbacks s !! k) as [cb|]; simpl; [reflexivity|].
  rewrite app_nil_r. by destruct s.
Qed.

(** X4: while the receive task runs, a burst of event frames creates one
    callback task per frame whose subscription is registered, in the order
    the frames arrived and each with its own payload; frames for unknown
    subscriptions create none.  The loop keeps running and neither the
    state, the tables nor the futures change. *)
Theorem events_queued_in_order (evs : list (Z * json)) (s : client) :
  _receive_task s = Some Running ->
  let s' := _receive_loop (map (fun ev => Message (event_frame (fst ev) (snd ev))) evs) s in
  spawned s' = spawned s ++ omap (delivery (_event_callbacks s)) evs /\
  _receive_task s' = Some Running /\
  state s' = state s /\
  _event_callbacks s' = _event_callbacks s /\
  _pending_requests s' = _pending_requests s /\
  futures s' = futures s.
Proof.
  revert s. induction evs as [|[k payload] evs IH]; intros s Hrun; simpl.
  - rewrite app_nil_r. repeat split; auto.
  - unfold _receive_loop in *. simpl.
    rewrite (event_frame_step s k payload Hrun).
    set (s1 := set_spawned _ _).
    destruct (IH s1) as (H1 & H2 & H3 & H4 & H5 & H6); [by subst s1|].
    simpl in *. rewrite H1, H2, H3, H4, H5, H6. subst s1. simpl.
    repeat split; auto.
    rewrite <- app_assoc. f_equal.
    by destruct (delivery (_event_callbacks s) (k, payload)).
Qed.

Lemma events_queued_in_order_witness :
  let cb : Callable := fun _ => Return tt in
  let s := set_event_callbacks {[ 2 := cb ]} online in
  _receive_task s = Some Running /\
  spawned (_receive_loop
             [Message (event_frame 2 (JInt 10)); Message (event_frame 9 (JInt 11));
              Message (event_frame 2 (JInt 12))] s)
    = [(cb, JInt 10); (cb, JInt 12)].
Proof.
  intros cb s. split; [reflexivity|].
  apply (events_queued_in_order [(2, JInt 10); (9, JInt 11); (2, JInt 12)] s).
  reflexivity.
Defined.

(** ** What the receive task never touches *)

(** X5: whatever frames arrive and however the stream ends, the receive task
    never draws an identifier, never writes to the socket, never changes the
    subscription registry and never replaces the socket. *)
Theorem receive_loop_only_reads (inbound : list stream_event) (s : client) :
  let s' := _receive_loop inbound s in
  _message_id s' = _message_id s /\
  outbox s' = outbox s /\
  _event_callbacks s' = _event_callbacks s /\
  _websocket s' = _websocket s.
Proof. exact (quiet_receive_loop inbound s). Qed.

(** ** [close] *)

Lemma cancel_refs_other (l : list nat) h f :
  f ∉ l -> foldr cancel_in h l !! f = h !! f.
Proof.
  induction l as [|x l IH]; intros Hf; simpl; [reflexivity|].
  rewrite cancel_in_lookup_ne.
  - apply IH. intros H. apply Hf. by right.
  - intros ->. apply Hf. by left.
Qed.

Lemma cancel_all_other (pending : gmap Z nat) h f :
  (forall k, pending !! k <> Some f) -> cancel_all pending h !! f = h !! f.
Proof.
  intros Hf. unfold cancel_all. apply cancel_refs_other.
  intros Hin. apply list_elem_of_fmap in Hin as ([k f'] & -> & Hin).
  apply elem_of_map_to_list in Hin. by apply (Hf k).
Qed.

(** X6: [close] from any state leaves the client Disconnected with both
    tables empty and the counter where it was.  Every request still in the
    table with a pending future has it cancelled, so its caller is woken
    with CancelledError; a future that was done keeps its outcome, and a
    future with no slot in the table is not touched. *)
Theorem close_tears_down (s : client) :
  let s' := fst (close s) in
  snd (close s) = Return tt /\
  state s' = DISCONNECTED /\
  _pending_requests s' = ∅ /\
  _event_callbacks s' = ∅ /\
  _message_id s' = _message_id s /\
  _receive_task s' <> Some Running /\
  (forall msg_id future,
     _pending_requests s !! msg_id = Some future ->
     futures s !! future = Some Pending ->
     futures s' !! future = Some Cancelled /\
     await_future future s' = Some (Raise CancelledError)) /\
  (forall future outcome,
     futures s !! future = Some outcome -> done outcome = true ->
     futures s' !! future = Some outcome) /\
  (forall future,
     (forall msg_id, _pending_requests s !! msg_id <> Some future) ->
     futures s' !! future = futures s !! future).
Proof.
  intros s'. destruct (close_effect s) as (Hst & Hp & Hc & Hid & Hf).
  fold s' in Hst, Hp, Hc, Hid, Hf.
  split.
  { unfold close. run_m. by destruct (_receive_task s) as [[|]|]. }
  split; [exact Hst|]. split; [exact Hp|]. split; [exact Hc|]. split; [exact Hid|].
  split.
  { subst s'. unfold close. run_m.
    destruct (_receive_task s) as [[|]|] eqn:E; simpl; rewrite ?E; discriminate. }
  split; [|split].
  - intros msg_id future Hk Hfut.
    assert (futures s' !! future = Some Cancelled) as H
      by (rewrite Hf; eapply cancel_all_lookup; eauto).
    split; [exact H|]. unfold await_future. by rewrite H.
  - intros future outcome Hfut Hd. rewrite Hf.
    by apply (settled_cancel_all (_pending_requests s) (futures s)).
  - intros future Hno. rewrite Hf. by apply cancel_all_other.
Qed.

(** X7: once [close] has run the receive task reads nothing more, so no
    frame that arrives later has any effect; and a second [close] changes
    nothing but the log. *)
Theorem closed_client_is_inert (s : client) (inbound : list stream_event) :
  let s' := fst (close s) in
  _receive_loop inbound s' = s' /\
  (let s'' := fst (close s') in
   state s'' = state s' /\
   _pending_requests s'' = _pending_requests s' /\
   _event_callbacks s'' = _event_callbacks s' /\
   futures s'' = futures s' /\
   _message_id s'' = _message_id s' /\
   _receive_task s'' = _receive_task s' /\
   _websocket s'' = _websocket s' /\
   outbox s'' = outbox s' /\
   log s'' = log s' ++ [LogClosing; LogClosed]).
Proof.
  intros s'. split.
  - apply receive_loop_finished. subst s'. unfold close. run_m.
    destruct (_receive_task s) as [[|]|] eqn:E; simpl; rewrite ?E; discriminate.
  - subst s'. unfold close. run_m.
    destruct (_receive_task s) as [[|]|] eqn:E; simpl; rewrite ?E; simpl;
      unfold cancel_all; rewrite map_to_list_empty; simpl;
      rewrite <- ?app_assoc, ?E; repeat split; reflexivity.
Qed.

(** ** Frames the loop does not survive *)

(** X8: a malformed frame is not the only one that ends the receive task.
    A well-formed frame that is not a JSON object makes [data.get] raise
    AttributeError, and a result or event frame whose [id] is an array or an
    object makes the table lookup raise TypeError.  In both cases the frame
    is logged as received, the error is logged, the state becomes
    Disconnected and the task returns; tables, futures and queued tasks are
    left as they were. *)
Theorem unusable_frame_ends_loop (s : client) :
  _receive_task s = Some Running ->
  (forall data,
     (forall fields, data <> JObj fields) ->
     receive_step (Message (Json data)) s
     = set_receive_task (Some Finished)
         (set_state DISCONNECTED
            (set_log ((log s ++ [LogReceived data]) ++ [LogLoopError AttributeError]) s))) /\
  (forall data ty id,
     get data "type" = Return (JStr ty) ->
     ty = "result" \/ ty = "event" ->
     get data "id" = Return id ->
     int_key id = Raise TypeError ->
     receive_step (Message (Json data)) s
     = set_receive_task (Some Finished)
         (set_state DISCONNECTED
            (set_log ((log s ++ [LogReceived data]) ++ [LogLoopError TypeError]) s))).
Proof.
  intros Hrun. split.
  - intros data Hno. unfold receive_step. rewrite Hrun.
    unfold handle_message. run_m.
    destruct data; try reflexivity. by destruct (Hno fields).
  - intros data ty id Hty Hor Hid Hkey. unfold receive_step. rewrite Hrun.
    unfold handle_message, find. run_m. rewrite Hty, Hid. simpl.
    destruct Hor as [-> | ->]; simpl; by rewrite Hkey.
Qed.

Lemma unusable_frame_ends_loop_witness :
  _receive_task waiting = Some Running /\
  state (receive_step (Message (Json (JArr []))) waiting) = DISCONNECTED /\
  state (receive_step
           (Message (Json (JObj [("type", JStr "event"); ("id", JArr [JInt 1])])))
           waiting) = DISCONNECTED.
Proof.
  split; [reflexivity|].
  destruct (unusable_frame_ends_loop waiting eq_refl) as [H1 H2].
  split.
  - rewrite (H1 (JArr [])); [reflexivity | discriminate].
  - rewrite (H2 (JObj [("type", JStr "event"); ("id", JArr [JInt 1])])
               "event" (JArr [JInt 1]) eq_refl (or_intror eq_refl) eq_refl eq_refl).
    reflexivity.
Defined.

(** X9: a frame whose type is none of result, event and pong, or that has no
    type at all, is logged with a warning naming the type and is otherwise
    ignored: the loop goes on and nothing but the log changes. *)
Theorem unhandled_frame_is_logged (s : client) (data msg_type : json) :
  _receive_task s = Some Running ->
  get data "type" = Return msg_type ->
  str_eq msg_type "result" = false ->
  str_eq msg_type "event" = false ->
  str_eq msg_type "pong" = false ->
  receive_step (Message (Json data)) s
    = set_log ((log s ++ [LogReceived data]) ++ [LogUnhandled msg_type]) s /\
  levelno (LogUnhandled msg_type) = WARNING.
Proof.
  intros Hrun Hty H1 H2 H3. split; [|reflexivity].
  unfold receive_step. rewrite Hrun. unfold handle_message. run_m.
  rewrite Hty. simpl. destruct data; try discriminate. simpl.
  by rewrite H1, H2, H3.
Qed.

Lemma unhandled_frame_is_logged_witness :
  _receive_task waiting = Some Running /\
  _receive_task (receive_step (Message (typed "auth_ok")) waiting) = Some Running.
Proof.
  split; [reflexivity|].
  destruct (unhandled_frame_is_logged waiting (JObj [("type", JStr "auth_ok")])
              (JStr "auth_ok") eq_refl eq_refl eq_refl eq_refl eq_refl) as [H _].
  unfold typed. rewrite H. reflexivity.
Defined.

(** X10: a result frame that matches a slot whose future is already done,
    as it is between the expiry of the command's timer (which cancels the
    future) and the cleanup that removes the slot, takes the slot out of the
    table and then fails to set the result: InvalidStateError ends the
    receive task with the state Disconnected.  The future keeps the outcome
    it had, and the cleanup that follows still raises CommandTimeout. *)
Theorem result_for_done_future_ends_loop
    (s : client) (data id : json) (k : Z) (future : nat) (outcome : Future)
    (command_type : string) :
  _receive_task s = Some Running ->
  get data "type" = Return (JStr "result") ->
  get data "id" = Return id ->
  find (_pending_requests s) id = Return (Some (k, future)) ->
  futures s !! future = Some outcome ->
  done outcome = true ->
  let s' := receive_step (Message (Json data)) s in
  _pending_requests s' = delete k (_pending_requests s) /\
  futures s' = futures s /\
  state s' = DISCONNECTED /\
  _receive_task s' = Some Finished /\
  log s' = (log s ++ [LogReceived data]) ++ [LogLoopError InvalidStateError] /\
  snd (send_command_timeout k command_type s') = Raise (CommandTimeout command_type).
Proof.
  intros Hrun Hty Hid Hfind Hfut Hdone s'.
  destruct (result_frame_matched s data id k future Hty Hid Hfind)
    as (success & result & error & _ & _ & _ & Hh).
  cbv zeta in Hh. rewrite Hfut in Hh.
  assert (s' = set_receive_task (Some Finished)
            (set_state DISCONNECTED
               (set_log ((log s ++ [LogReceived data]) ++ [LogLoopError InvalidStateError])
                  (set_pending_requests (delete k (_pending_requests s)) s)))) as ->.
  { subst s'. unfold receive_step. rewrite Hrun, Hh.
    destruct outcome; try discriminate; reflexivity. }
  repeat split; reflexivity.
Qed.

Lemma result_for_done_future_ends_loop_witness :
  let s := fst (wait_for_expired 0%nat waiting) in
  _receive_task s = Some Running /\
  futures s !! 0%nat = Some Cancelled /\
  state (receive_step (Message (Json (answer 1 JNull))) s) = DISCONNECTED.
Proof.
  intros s. split; [reflexivity|]. split; [reflexivity|].
  apply (result_for_done_future_ends_loop s (answer 1 JNull) (JInt 1) 1 0%nat
           Cancelled "get_states"); reflexivity.
Defined.

(** ** What [connect] keeps *)

Lemma connect_keeps (s : client) dial recv1 tx recv2 :
  let s' := fst (connect dial recv1 tx recv2 s) in
  _message_id s' = _message_id s /\
  _pending_requests s' = _pending_requests s /\
  _event_callbacks s' = _event_callbacks s /\
  futures s' = futures s /\
  spawned s' = spawned s /\
  (outbox s' = outbox s \/
   outbox s' = outbox s ++ [JObj [("type", JStr "auth"); ("access_token", JStr (token s))]]).
Proof.
  unfold connect, ws_send. run_m.
  destruct dial as [[]|e1]; simpl;
    [destruct recv1 as [[raw|data1]|e2]; simpl;
      [|destruct data1; simpl;
         try (destruct (str_eq (default JNull (assoc "type" fields)) "auth_required");
              simpl;
           [destruct tx as [[]|e3]; simpl;
             [destruct recv2 as [[raw2|data2]|e4]; simpl;
               [|destruct data2; simpl;
                 try (destruct (str_eq (default JNull (assoc "type" fields0)) "auth_ok");
                      simpl)
               |destruct (is_exception e4); simpl]
             |destruct (is_exception e3); simpl]
           |])
      |destruct (is_exception e2); simpl]
    |destruct (is_exception e1); simpl].
  all: repeat split; auto.
Qed.

(** X11: whatever the handshake brings, [connect] leaves the identifier
    counter, both tables, the futures and the queued tasks as they were, and
    sends at most one frame, the credential.  So connecting again after a
    [close] goes on numbering where the client had stopped. *)
Theorem connect_keeps_counter (s : client) dial recv1 tx recv2 :
  let s' := fst (connect dial recv1 tx recv2 s) in
  let again := fst (connect dial recv1 tx recv2 (fst (close s))) in
  _message_id s' = _message_id s /\
  _pending_requests s' = _pending_requests s /\
  _event_callbacks s' = _event_callbacks s /\
  futures s' = futures s /\
  spawned s' = spawned s /\
  (outbox s' = outbox s \/
   outbox s' = outbox s ++ [JObj [("type", JStr "auth"); ("access_token", JStr (token s))]]) /\
  _message_id again = _message_id s /\
  _pending_requests again = ∅.
Proof.
  intros s' again.
  destruct (connect_keeps s dial recv1 tx recv2) as (H1 & H2 & H3 & H4 & H5 & H6).
  destruct (connect_keeps (fst (close s)) dial recv1 tx recv2) as (G1 & G2 & _).
  destruct (close_effect s) as (_ & C2 & _ & C4 & _).
  cbv zeta in *. fold s' in H1, H2, H3, H4, H5, H6. fold again in G1, G2.
  repeat split; auto; congruence.
Qed.

(** ** Subscriptions *)

Lemma send_command_keeps_registry (s : client) command_type kwargs tx inbound :
  let r := send_command command_type kwargs tx inbound s in
  _event_callbacks (fst r) = _event_callbacks s /\
  _message_id s <= _message_id (fst r) <= _message_id s + 1.
Proof.
  intros r. destruct r as [s' v] eqn:R. subst r. simpl.
  unfold send_command, bind at 1 in R.
  destruct (send_command_begin command_type kwargs tx s) as [s1 [[msg_id future]|e]] eqn:E.
  - destruct (send_command_begin_Return _ _ _ _ _ _ _ E)
      as (_ & Hid & _ & Hid1 & _ & Hcb & _).
    unfold bind at 1, modify in R. simpl in R.
    destruct (quiet_receive_loop inbound s1) as (Hq1 & _ & Hq3 & _).
    destruct (await_future future (_receive_loop inbound s1)) as [[w|e]|];
      simpl in R; inversion R; subst s' v; simpl;
      rewrite Hq1, Hq3, Hcb, Hid1; split; auto; lia.
  - inversion R; subst s' v. revert E.
    unfold send_command_begin, _next_id, new_future, ws_send. run_m.
    destruct (decide (state s = CONNECTED)); simpl.
    + destruct (_websocket s); simpl; [destruct tx; simpl|];
        intros E; inversion E; subst; simpl; split; auto; lia.
    + intros E; inversion E; subst; simpl; split; auto; lia.
Qed.

(** X12: when the subscribe command fails, by an error from the server, a
    timeout, a refused send or a client that is not connected,
    [subscribe_events] raises the same exception, registers no callback and
    draws no second identifier. *)
Theorem failed_subscribe_registers_nothing
    (s : client) (event_type : option string) (callback : option Callable)
    (tx : py unit) (inbound : list stream_event) (e : exn) :
  snd (send_command "subscribe_events" (subscribe_command event_type) tx inbound s)
    = Raise e ->
  let r := subscribe_events event_type callback tx inbound s in
  snd r = Raise e /\
  _event_callbacks (fst r) = _event_callbacks s /\
  _message_id (fst r) <= _message_id s + 1.
Proof.
  intros Hfail r.
  destruct (send_command_keeps_registry s "subscribe_events"
              (subscribe_command event_type) tx inbound) as (Hcb & Hid).
  subst r. unfold subscribe_events, bind.
  destruct (send_command "subscribe_events" (subscribe_command event_type) tx inbound s)
    as [s1 [v|e']]; simpl in *; [discriminate|].
  inversion Hfail; subst. split; [reflexivity|]. split; [exact Hcb | lia].
Qed.

Lemma failed_subscribe_registers_nothing_witness :
  snd (send_command "subscribe_events" (subscribe_command None) (Return tt) [] online)
    = Raise (CommandTimeout "subscribe_events") /\
  snd (subscribe_events None (Some (fun _ => Return tt)) (Return tt) [] online)
    = Raise (CommandTimeout "subscribe_events").
Proof.
  split; [reflexivity|].
  apply (failed_subscribe_registers_nothing online None (Some (fun _ => Return tt))
           (Return tt) [] (CommandTimeout "subscribe_events")).
  reflexivity.
Defined.

(** X13: subscribing without a callback succeeds like any other
    subscription and returns an identifier, two past the counter, but leaves
    the registry unchanged, so events of that subscription find no callback.
    An absent or empty event type puts no [event_type] filter in the
    command. *)
Theorem subscribe_without_callback
    (s s' : client) (event_type : option string) (tx : py unit)
    (inbound : list stream_event) (subscription_id : Z) :
  subscribe_events event_type None tx inbound s = (s', Return subscription_id) ->
  _event_callbacks s' = _event_callbacks s /\
  subscription_id = _message_id s + 2 /\
  _message_id s' = _message_id s + 2 /\
  (event_type = None \/ event_type = Some "" ->
   last (outbox s')
     = Some (JObj [("id", JInt (_message_id s + 1)); ("type", JStr "subscribe_events")])).
Proof.
  intros Hsub.
  unfold subscribe_events, send_command in Hsub. unfold bind at 1 2 in Hsub.
  destruct (send_command_begin "subscribe_events" (subscribe_command event_type) tx s)
    as [s1 [[msg_id future]|e]] eqn:E; [|discriminate].
  destruct (send_command_begin_Return _ _ _ _ _ _ _ E)
    as (_ & Hid & _ & Hid1 & _ & Hcb & _ & Hout).
  unfold bind at 1, modify in Hsub. simpl in Hsub.
  destruct (quiet_receive_loop inbound s1) as (Hq1 & Hq2 & Hq3 & _).
  destruct (await_future future (_receive_loop inbound s1)) as [[v|e]|];
    simpl in Hsub; try discriminate.
  unfold subscribe_events_finish, _next_id in Hsub. run_m.
  inversion Hsub; subst s' subscription_id; clear Hsub. simpl.
  rewrite Hq1, Hq2, Hq3, Hcb, Hid1, Hout, Hid.
  split; [reflexivity|]. split; [lia|]. split; [lia|].
  intros [-> | ->]; simpl; apply last_snoc.
Qed.

Lemma subscribe_without_callback_witness :
  let r := subscribe_events None None (Return tt)
             [Message (Json (answer 1 JNull))] online in
  r = (fst r, Return 2) /\
  _event_callbacks (fst r) = _event_callbacks online.
Proof.
  intros r.
  assert (r = (fst r, Return 2)) as H by (vm_compute; reflexivity).
  split; [exact H|].
  exact (proj1 (subscribe_without_callback online (fst r) None (Return tt)
                  [Message (Json (answer 1 JNull))] 2 H)).
Defined.

(** ** A subscription lasts until [close] *)

Lemma registry_kept_by_step (a : action) (s : client) (k : Z) (cb : Callable) :
  bounded s -> a <> DoClose ->
  _event_callbacks s !! k = Some cb ->
  _event_callbacks (exec a s) !! k = Some cb.
Proof.
  intros [_ Hb] Hne Hk. destruct a; cbn [exec].
  - destruct (connect_keeps s dial recv1 tx recv2) as (_ & _ & H & _).
    cbv zeta in H. by rewrite H.
  - destruct (quiet_receive_step ev s) as (_ & _ & H & _). by rewrite H.
  - unfold run_task, _safe_callback. run_m.
    destruct (spawned s) as [|[callback data] rest]; simpl; [exact Hk|].
    destruct (callback data) as [[]|e]; simpl; [exact Hk|].
    by destruct (is_exception e).
  - unfold send_command_begin, _next_id, new_future, ws_send. run_m.
    destruct (decide (state s = CONNECTED)); simpl; [|exact Hk].
    destruct (_websocket s); simpl; [|exact Hk]. by destruct tx.
  - exact Hk.
  - exact Hk.
  - unfold subscribe_events_finish, _next_id. run_m.
    destruct callback as [cb'|]; simpl; [|exact Hk].
    rewrite lookup_insert_ne; [exact Hk|].
    assert (k <= _message_id s) by (apply Hb; rewrite Hk; eauto). lia.
  - unfold ping, _next_id, ws_send. run_m.
    destruct (_websocket s); simpl; [|exact Hk]. by destruct tx.
  - contradiction.
Qed.

(** X14: nothing but [close] removes or replaces a registered callback.  In
    any state the client can reach, a callback registered under an
    identifier is still registered under it after any schedule of commands,
    timeouts, pings, further subscriptions, reconnections, inbound frames and
    callback runs that contains no [close]. *)
Theorem subscription_lasts_until_close
    (s : client) (k : Z) (cb : Callable) (acts : list action) :
  reachable s ->
  _event_callbacks s !! k = Some cb ->
  DoClose ∉ acts ->
  _event_callbacks (run acts s) !! k = Some cb.
Proof.
  revert s. induction acts as [|a acts IH]; intros s Hreach Hk Hno; [exact Hk|].
  change (run (a :: acts) s) with (run acts (exec a s)).
  apply IH.
  - apply (reachable_run [a] s Hreach).
  - apply registry_kept_by_step; auto.
    + by apply reachable_bounded.
    + intros ->. apply Hno. by left.
  - intros H. apply Hno. by right.
Qed.

Lemma subscription_lasts_until_close_witness :
  let cb : Callable := fun _ => Return tt in
  let s := run [DoSendCommand "subscribe_events" [] (Return tt);
                DoReceive (Message (Json (answer 1 JNull)));
                DoSubscribeFinish None (Some cb)] online in
  let acts := [DoPing (Return tt); DoSendCommand "get_states" [] (Return tt);
               DoSubscribeFinish None (Some (fun _ => Raise (CallbackError "other")))] in
  _event_callbacks s !! 2 = Some cb /\
  _event_callbacks (run acts s) !! 2 = Some cb.
Proof.
  intros cb s acts.
  assert (_event_callbacks s !! 2 = Some cb) as Hk by (vm_compute; reflexivity).
  split; [exact Hk|].
  apply (subscription_lasts_until_close s 2 cb acts).
  - exists "ws://homeassistant.local:8123/api/websocket", "secret",
      [DoConnect (Return tt) (Return (typed "auth_required")) (Return tt)
         (Return (typed "auth_ok"));
       DoSendCommand "subscribe_events" [] (Return tt);
       DoReceive (Message (Json (answer 1 JNull)));
       DoSubscribeFinish None (Some cb)].
    vm_compute. reflexivity.
  - exact Hk.
  - subst acts. intros H. repeat (apply elem_of_cons in H as [H|H]; [discriminate|]).
    by apply elem_of_nil in H.
Defined.

(** * Properties of the operations built on the client *)

(** ** [get_state] *)

Lemma first_state_found (entity_id : string) (states : list json) (state : json) :
  first_state entity_id states = ApiReturn (Some state) <->
  exists before after v,
    states = before ++ state :: after /\
    getitem state "entity_id" = ApiReturn v /\ str_eq v entity_id = true /\
    Forall (fun x => exists w, getitem x "entity_id" = ApiReturn w /\
                               str_eq w entity_id = false) before.
Proof.
  induction states as [|x states IH]; simpl.
  - split; [discriminate|]. intros (before & after & v & H & _).
    by destruct before.
  - destruct (getitem x "entity_id") as [w| |] eqn:Hx.
    + destruct (str_eq w entity_id) eqn:Hw.
      * split.
        -- intros H. inversion H; subst. exists [], states, w. auto.
        -- intros (before & after & v & H & Hv & Hm & Hall).
           destruct before as [|b before]; simpl in H; inversion H; subst; [reflexivity|].
           apply Forall_cons in Hall as [(w' & Hw' & Hne) _].
           rewrite Hx in Hw'. inversion Hw'; subst. congruence.
      * rewrite IH. split.
        -- intros (before & after & v & -> & Hv & Hm & Hall).
           exists (x :: before), after, v. repeat split; auto.
           apply Forall_cons. split; eauto.
        -- intros (before & after & v & H & Hv & Hm & Hall).
           destruct before as [|b before]; simpl in H; inversion H; subst.
           ++ rewrite Hx in Hv. inversion Hv; subst. congruence.
           ++ apply Forall_cons in Hall as [_ Hall]. exists before, after, v. auto.
    + split; [discriminate|]. intros (before & after & v & H & Hv & Hm & Hall).
      destruct before as [|b before]; simpl in H; inversion H; subst.
      * rewrite Hx in Hv. discriminate.
      * apply Forall_cons in Hall as [(w' & Hw' & _) _]. rewrite Hx in Hw'. discriminate.
    + split; [discriminate|]. intros (before & after & v & H & Hv & Hm & Hall).
      destruct before as [|b before]; simpl in H; inversion H; subst.
      * rewrite Hx in Hv. discriminate.
      * apply Forall_cons in Hall as [(w' & Hw' & _) _]. rewrite Hx in Hw'. discriminate.
Qed.

Lemma first_state_none (entity_id : string) (states : list json) :
  first_state entity_id states = ApiReturn None <->
  Forall (fun x => exists w, getitem x "entity_id" = ApiReturn w /\
                             str_eq w entity_id = false) states.
Proof.
  induction states as [|x states IH]; simpl.
  - split; auto.
  - destruct (getitem x "entity_id") as [w| |] eqn:Hx.
    + destruct (str_eq w entity_id) eqn:Hw.
      * split; [discriminate|]. intros H.
        apply Forall_cons in H as [(w' & Hw' & Hne) _].
        rewrite Hx in Hw'. inversion Hw'; subst. congruence.
      * rewrite IH. split.
        -- intros H. apply Forall_cons. split; eauto.
        -- intros H. by apply Forall_cons in H as [_ H].
    + split; [discriminate|]. intros H.
      apply Forall_cons in H as [(w' & Hw' & _) _]. rewrite Hx in Hw'. discriminate.
    + split; [discriminate|]. intros H.
      apply Forall_cons in H as [(w' & Hw' & _) _]. rewrite Hx in Hw'. discriminate.
Qed.

(** X15: when the [get_states] command returns a list, [get_state] returns
    the first entry whose [entity_id] equals the one asked for, provided
    every entry before it is a dict with a different [entity_id]; it returns
    [None] exactly when every entry is a dict with a different [entity_id].
    An entry that is no dict, or has no [entity_id], met before a match makes
    the call raise instead.  When the command returns something without a
    length (null, a number, a boolean) the call raises TypeError although the
    command succeeded. *)
Theorem get_state_first_match
    (h : hass) (entity_id : string) (tx : py unit) (inbound : list stream_event)
    (c : client) (result : json) :
  send_command "get_states" [] tx inbound (ws h) = (c, Return result) ->
  let r := get_state entity_id tx inbound h in
  (has_len result = false ->
     r = (Hass c (api_log h), ApiRaise TypeError)) /\
  (forall states, result = JArr states ->
     fst r = Hass c (api_log h ++ [LogFetched result]) /\
     (forall state,
        snd r = ApiReturn (Some state) <->
        exists before after v,
          states = before ++ state :: after /\
          getitem state "entity_id" = ApiReturn v /\ str_eq v entity_id = true /\
          Forall (fun x => exists w, getitem x "entity_id" = ApiReturn w /\
                                     str_eq w entity_id = false) before) /\
     (snd r = ApiReturn None <->
        Forall (fun x => exists w, getitem x "entity_id" = ApiReturn w /\
                                   str_eq w entity_id = false) states) /\
     (forall before bad after,
        states = before ++ bad :: after ->
        Forall (fun x => exists w, getitem x "entity_id" = ApiReturn w /\
                                   str_eq w entity_id = false) before ->
        (forall fields, bad <> JObj fields) ->
        snd r = ApiRaise TypeError)).
Proof.
  intros Hcmd r. subst r. unfold get_state, get_states. rewrite Hcmd.
  split.
  - intros Hlen. by rewrite Hlen.
  - intros states ->. simpl.
    split; [reflexivity|].
    split; [intros state; apply first_state_found|].
    split; [apply first_state_none|].
    intros before bad after -> Hall Hbad. clear Hcmd.
    induction Hall as [|b before (w & Hw & Hne) Hall IH]; simpl.
    + destruct bad; try reflexivity. by destruct (Hbad fields).
    + rewrite Hw, Hne. exact IH.
Qed.

Lemma get_state_first_match_witness :
  let kitchen := JObj [("entity_id", JStr "light.kitchen"); ("state", JStr "on")] in
  let hall := JObj [("entity_id", JStr "light.hall"); ("state", JStr "off")] in
  let inbound := [Message (Json (answer 1 (JArr [kitchen; hall])))] in
  let h := Hass online [] in
  fst (send_command "get_states" [] (Return tt) inbound (ws h))
    = fst (send_command "get_states" [] (Return tt) inbound (ws h)) /\
  snd (get_state "light.hall" (Return tt) inbound h) = ApiReturn (Some hall).
Proof.
  intros kitchen hall inbound h. split; [reflexivity|].
  assert (send_command "get_states" [] (Return tt) inbound (ws h)
          = (fst (send_command "get_states" [] (Return tt) inbound (ws h)),
             Return (JArr [kitchen; hall]))) as Hcmd by (vm_compute; reflexivity).
  destruct (get_state_first_match h "light.hall" (Return tt) inbound _ _ Hcmd)
    as (_ & H).
  destruct (H [kitchen; hall] eq_refl) as (_ & Hfound & _).
  apply Hfound. exists [kitchen], [], (JStr "light.hall").
  split; [reflexivity|]. split; [reflexivity|]. split; [reflexivity|].
  apply Forall_cons. split; [|apply Forall_nil; exact I].
  exists (JStr "light.kitchen"). split; reflexivity.
Defined.

(** ** [call_service] *)

Lemma send_command_outbox (s : client) command_type kwargs (sock : socket) inbound :
  state s = CONNECTED -> _websocket s = Some sock ->
  let r := send_command command_type kwargs (Return tt) inbound s in
  outbox (fst r) = outbox s ++
    [JObj (dict_merge [("id", JInt (_message_id s + 1)); ("type", JStr command_type)]
             kwargs)] /\
  _message_id (fst r) = _message_id s + 1.
Proof.
  intros Hst Hws r. destruct r as [s' v] eqn:R. subst r. simpl.
  unfold send_command, bind at 1 in R.
  rewrite (send_command_begin_connected s command_type kwargs sock Hst Hws) in R.
  unfold bind at 1, modify in R. cbn [fst snd] in R.
  set (s1 := set_outbox _ _) in R.
  destruct (quiet_receive_loop inbound s1) as (Hq1 & Hq2 & _).
  destruct (await_future _ (_receive_loop inbound s1)) as [[w|e]|];
    simpl in R; inversion R; subst s' v; simpl; rewrite Hq1, Hq2; by subst s1.
Qed.

(** X16: on a connected client [call_service] sends one frame, of type
    [call_service], carrying the identifier just drawn, the domain and the
    service.  With no entity (absent or the empty string) and no further
    data the frame has no [service_data] at all; with an entity, the frame's
    [service_data] holds it under [entity_id] together with every further
    datum.  The call is logged before it is sent. *)
Theorem call_service_frame
    (h : hass) (domain service : string) (entity_id : option string)
    (service_data : list (string * json)) (sock : socket)
    (inbound : list stream_event) :
  state (ws h) = CONNECTED ->
  _websocket (ws h) = Some sock ->
  NoDup service_data.*1 ->
  assoc "entity_id" service_data = None ->
  let r := call_service domain service entity_id service_data (Return tt) inbound h in
  exists message,
    outbox (ws (fst r)) = outbox (ws h) ++ [message] /\
    api_log (fst r) = api_log h ++ [LogCalling domain service entity_id] /\
    get message "id" = Return (JInt (_message_id (ws h) + 1)) /\
    get message "type" = Return (JStr "call_service") /\
    get message "domain" = Return (JStr domain) /\
    get message "service" = Return (JStr service) /\
    ((entity_id = None \/ entity_id = Some "") -> service_data = [] ->
       message = JObj [("id", JInt (_message_id (ws h) + 1));
                       ("type", JStr "call_service");
                       ("domain", JStr domain); ("service", JStr service)]) /\
    (forall e, entity_id = Some e -> e <> "" ->
       exists data,
         get message "service_data" = Return (JObj data) /\
         assoc "entity_id" data = Some (JStr e) /\
         forall k v, assoc k service_data = Some v -> assoc k data = Some v).
Proof.
  intros Hst Hws Hnd Hno r. subst r. unfold call_service.
  destruct (send_command_outbox (ws h) "call_service"
              (service_call domain service entity_id service_data) sock inbound Hst Hws)
    as (Hout & _).
  cbv zeta in Hout.
  destruct (send_command "call_service"
              (service_call domain service entity_id service_data) (Return tt)
              inbound (ws h)) as [c outcome].
  simpl in *. eexists. split; [exact Hout|]. split; [reflexivity|].
  unfold service_call.
  set (base := match entity_id with
               | Some e => if String.eqb e "" then [] else [("entity_id", JStr e)]
               | None => []
               end).
  assert (forall k v, assoc k service_data = Some v ->
            assoc k (dict_merge base service_data) = Some v) as Hkeep
    by (intros k v Hk; by apply assoc_dict_merge_present).
  assert (assoc "entity_id" (dict_merge base service_data) = assoc "entity_id" base)
    as Hent by (by apply assoc_dict_merge_absent).
  destruct (dict_merge base service_data) as [|kv data] eqn:Hdata.
  - do 4 (split; [reflexivity|]). split; [intros _ _; reflexivity|].
    intros e -> He. subst base. simpl in Hent.
    destruct (String.eqb e "") eqn:E; [by apply String.eqb_eq in E|].
    simpl in Hent. discriminate.
  - do 4 (split; [reflexivity|]). split.
    + intros Hor ->. subst base. unfold dict_merge in Hdata.
      destruct Hor as [-> | ->]; discriminate.
    + intros e -> He. exists (kv :: data). split; [reflexivity|].
      split; [|exact Hkeep].
      rewrite Hent. subst base.
      destruct (String.eqb e "") eqn:E; [by apply String.eqb_eq in E|].
      reflexivity.
Qed.

Lemma call_service_frame_witness :
  let h := Hass online [] in
  state (ws h) = CONNECTED /\
  NoDup [("brightness", JInt 0)].*1 /\
  exists message,
    outbox (ws (fst (call_service "light" "turn_on" (Some "light.kitchen")
                       [("brightness", JInt 0)] (Return tt) [] h)))
      = outbox (ws h) ++ [message] /\
    get message "type" = Return (JStr "call_service").
Proof.
  intros h. split; [reflexivity|].
  assert (NoDup [("brightness", JInt 0)].*1) as Hnd by (simpl; apply NoDup_singleton).
  split; [exact Hnd|].
  destruct (call_service_frame h "light" "turn_on" (Some "light.kitchen")
              [("brightness", JInt 0)]
              (Socket "ws://homeassistant.local:8123/api/websocket") []
              eq_refl eq_refl Hnd eq_refl)
    as (message & Hout & _ & _ & Hty & _).
  exists message. split; [exact Hout | exact Hty].
Defined.

(** ** [turn_on_light] *)

(** X17: [turn_on_light] calls the service [light.turn_on] with the entity
    and with exactly the options that were given: a brightness is sent
    whenever one is passed, a brightness of 0 included, and a colour is sent
    as a list; an option that is not passed does not appear. *)
Theorem turn_on_light_options
    (h : hass) (entity_id : string) (brightness : option Z)
    (rgb_color : option (list json)) (sock : socket) (inbound : list stream_event) :
  state (ws h) = CONNECTED ->
  _websocket (ws h) = Some sock ->
  entity_id <> "" ->
  let r := turn_on_light entity_id brightness rgb_color (Return tt) inbound h in
  outbox (ws (fst r)) = outbox (ws h) ++
    [JObj [("id", JInt (_message_id (ws h) + 1)); ("type", JStr "call_service");
           ("domain", JStr "light"); ("service", JStr "turn_on");
           ("service_data",
            JObj ([("entity_id", JStr entity_id)]
                  ++ match brightness with
                     | Some b => [("brightness", JInt b)]
                     | None => []
                     end
                  ++ match rgb_color with
                     | Some rgb => [("rgb_color", JArr rgb)]
                     | None => []
                     end))]].
Proof.
  intros Hst Hws He r. subst r. unfold turn_on_light, call_service.
  set (kwargs := service_call _ _ _ _).
  destruct (send_command_outbox (ws h) "call_service" kwargs sock inbound Hst Hws)
    as (Hout & _).
  cbv zeta in Hout.
  destruct (send_command "call_service" kwargs (Return tt) inbound (ws h))
    as [c [v|e]]; simpl in *; rewrite Hout; subst kwargs; unfold service_call;
    (destruct (String.eqb entity_id "") eqn:E; [by apply String.eqb_eq in E|]);
    destruct brightness, rgb_color; reflexivity.
Qed.

Lemma turn_on_light_options_witness :
  let h := Hass online [] in
  state (ws h) = CONNECTED /\
  "light.kitchen" <> "" /\
  last (outbox (ws (fst (turn_on_light "light.kitchen" (Some 0) None (Return tt) [] h))))
    = Some (JObj [("id", JInt 1); ("type", JStr "call_service");
                  ("domain", JStr "light"); ("service", JStr "turn_on");
                  ("service_data", JObj [("entity_id", JStr "light.kitchen");
                                         ("brightness", JInt 0)])]).
Proof.
  intros h. split; [reflexivity|]. split; [discriminate|].
  rewrite (turn_on_light_options h "light.kitchen" (Some 0) None
             (Socket "ws://homeassistant.local:8123/api/websocket") []
             eq_refl eq_refl); [|discriminate].
  apply last_snoc.
Defined.

(** ** The context manager *)

Lemma close_tears_down_aux (s : client) :
  snd (close s) = Return tt /\
  state (fst (close s)) = DISCONNECTED /\
  _pending_requests (fst (close s)) = ∅ /\
  _event_callbacks (fst (close s)) = ∅.
Proof.
  destruct (close_effect s) as (H1 & H2 & H3 & _).
  split; [|auto]. unfold close. run_m. by destruct (_receive_task s) as [[|]|].
Qed.

Lemma connect_result_state (s : client) dial recv1 tx recv2 :
  match snd (connect dial recv1 tx recv2 s) with
  | Return true => state (fst (connect dial recv1 tx recv2 s)) = CONNECTED
  | Return false => state (fst (connect dial recv1 tx recv2 s)) = DISCONNECTED
  | Raise e => e = CancelledError
  end.
Proof.
  assert (forall e, is_exception e = false -> e = CancelledError) as Hbase
    by (intros e; destruct e; simpl; congruence).
  unfold connect, ws_send. run_m.
  destruct dial as [[]|e1]; simpl;
    [destruct recv1 as [[raw|data1]|e2]; simpl;
      [|destruct data1; simpl;
         try (destruct (str_eq (default JNull (assoc "type" fields)) "auth_required");
              simpl;
           [destruct tx as [[]|e3]; simpl;
             [destruct recv2 as [[raw2|data2]|e4]; simpl;
               [|destruct data2; simpl;
                 try (destruct (str_eq (default JNull (assoc "type" fields0)) "auth_ok");
                      simpl)
               |destruct (is_exception e4) eqn:X; simpl]
             |destruct (is_exception e3) eqn:X; simpl]
           |])
      |destruct (is_exception e2) eqn:X; simpl]
    |destruct (is_exception e1) eqn:X; simpl].
  all: auto.
Qed.

(** X18: entering [async with] does not tell whether the connection was
    made: unless the handshake is cancelled, [__aenter__] returns normally,
    leaving the client Connected or Disconnected.  When it is Disconnected a
    command issued in the body raises NotConnected.  However the body ends,
    the block leaves the client Disconnected with both tables empty, and
    hands on the body's own outcome. *)
Theorem async_with_always_closes {A} (s : client) dial recv1 tx recv2 (body : M A) :
  (snd (__aenter__ dial recv1 tx recv2 s) = Return tt \/
   snd (__aenter__ dial recv1 tx recv2 s) = Raise CancelledError) /\
  (snd (__aenter__ dial recv1 tx recv2 s) = Return tt ->
   let entered := fst (__aenter__ dial recv1 tx recv2 s) in
   let r := async_with dial recv1 tx recv2 body s in
   (state entered = CONNECTED \/ state entered = DISCONNECTED) /\
   (state entered = DISCONNECTED ->
    forall command_type kwargs tx' inbound,
      send_command command_type kwargs tx' inbound entered
        = (entered, Raise NotConnected)) /\
   snd r = snd (body entered) /\
   state (fst r) = DISCONNECTED /\
   _pending_requests (fst r) = ∅ /\
   _event_callbacks (fst r) = ∅).
Proof.
  pose proof (connect_result_state s dial recv1 tx recv2) as Hres.
  unfold async_with, __aenter__, __aexit__, bind.
  destruct (connect dial recv1 tx recv2 s) as [s1 [[|]|e]] eqn:E; simpl in *.
  - split; [by left|]. intros _.
    split; [by left|]. split; [rewrite Hres; discriminate|].
    destruct (body s1) as [s2 outcome]. simpl.
    destruct (close_tears_down_aux s2) as (Hr & H1 & H2 & H3).
    destruct (close s2) as [s3 [[]|e]]; simpl in *; try discriminate. auto.
  - split; [by left|]. intros _.
    split; [by right|].
    split; [intros _ command_type kwargs tx' inbound;
            apply send_command_not_connected; rewrite Hres; discriminate|].
    destruct (body s1) as [s2 outcome]. simpl.
    destruct (close_tears_down_aux s2) as (Hr & H1 & H2 & H3).
    destruct (close s2) as [s3 [[]|e]]; simpl in *; try discriminate. auto.
  - split; [|discriminate]. right. by rewrite Hres.
Qed.

(** * Properties of the configuration helpers *)

(** ** [deep_merge] *)

Lemma deep_merge_cons (base : list (string * json)) key value rest :
  deep_merge base ((key, value) :: rest)
  = deep_merge
      (setitem key
         match assoc key base, value with
         | Some (JObj old), JObj new => JObj (deep_merge old new)
         | _, _ => value
         end
         base)
      rest.
Proof.
  unfold deep_merge. simpl.
  destruct (assoc key base) as [[| | | | | |old]|]; try reflexivity.
  destruct value; reflexivity.
Qed.

Lemma assoc_absent (k : string) (d : list (string * json)) :
  k ∉ d.*1 -> assoc k d = None.
Proof.
  induction d as [|[k' v] d IH]; intros Hk; simpl; [reflexivity|].
  destruct (String.eqb k k') eqn:E.
  - apply String.eqb_eq in E. subst. exfalso. apply Hk. simpl. by left.
  - apply IH. intros H. apply Hk. simpl. by right.
Qed.

(** X19: in the merged dictionary a key that [override] does not have keeps
    the value of [base]; a key that [override] has takes the value of
    [override], except that when both values are dictionaries the result is
    their deep merge. *)
Theorem deep_merge_precedence (base override : list (string * json)) (k : string) :
  NoDup override.*1 ->
  assoc k (deep_merge base override)
  = match assoc k override with
    | None => assoc k base
    | Some value =>
        Some match assoc k base, value with
             | Some (JObj old), JObj new => JObj (deep_merge old new)
             | _, _ => value
             end
    end.
Proof.
  revert base. induction override as [|[key value] rest IH]; intros base Hnd.
  - reflexivity.
  - rewrite deep_merge_cons. simpl in Hnd. apply NoDup_cons in Hnd as [Hnotin Hnd].
    rewrite IH by exact Hnd. simpl.
    destruct (String.eqb k key) eqn:E.
    + apply String.eqb_eq in E. subst key.
      rewrite (assoc_absent k rest Hnotin). apply assoc_setitem_eq.
    + assert (key <> k) as Hne by (intros ->; by rewrite String.eqb_refl in E).
      by rewrite (assoc_setitem_ne key k _ base Hne).
Qed.

Lemma deep_merge_precedence_witness :
  NoDup [("display", JObj [("show_counts", JBool false)]); ("favorites", JArr [])].*1 /\
  assoc "display"
    (deep_merge
       [("display", JObj [("default_group", JStr "type"); ("show_counts", JBool true)])]
       [("display", JObj [("show_counts", JBool false)]); ("favorites", JArr [])])
  = Some (JObj [("default_group", JStr "type"); ("show_counts", JBool false)]).
Proof.
  assert (NoDup [("display", JObj [("show_counts", JBool false)]);
                 ("favorites", JArr [])].*1) as Hnd.
  { simpl. apply NoDup_cons. split.
    - intros H. apply list_elem_of_singleton in H. discriminate.
    - apply NoDup_singleton. }
  split; [exact Hnd|].
  rewrite (deep_merge_precedence _ _ "display" Hnd). reflexivity.
Defined.

Lemma setitem_keys (k : string) (v : json) (d : list (string * json)) :
  (setitem k v d).*1 = if decide (k ∈ d.*1) then d.*1 else d.*1 ++ [k].
Proof.
  induction d as [|[k' v'] d IH].
  - reflexivity.
  - cbn [setitem fmap list_fmap fst].
    destruct (String.eqb k k') eqn:E; cbn [fmap list_fmap fst].
    + apply String.eqb_eq in E. subst k'.
      rewrite decide_True; [reflexivity | by left].
    + assert (k <> k') as Hne by (intros ->; by rewrite String.eqb_refl in E).
      rewrite IH. destruct (decide (k ∈ d.*1)) as [Hin|Hin].
      * rewrite decide_True; [reflexivity | by right].
      * rewrite decide_False; [reflexivity|].
        intros H. apply elem_of_cons in H as [?|?]; [congruence | by apply Hin].
Qed.

Lemma filter_new_keys (seen rest : list string) (key : string) :
  key ∉ rest ->
  filter (fun k => k ∉ seen ++ [key]) rest = filter (fun k => k ∉ seen) rest.
Proof.
  induction rest as [|x rest IH]; intros Hk; [reflexivity|].
  rewrite !filter_cons.
  assert (x <> key) as Hne by (intros ->; apply Hk; by left).
  rewrite IH by (intros H; apply Hk; by right).
  destruct (decide (x ∉ seen)) as [Hx|Hx].
  - rewrite decide_True; [reflexivity|].
    intros H. apply elem_of_app in H as [H|H]; [by apply Hx|].
    apply list_elem_of_singleton in H. congruence.
  - rewrite decide_False; [reflexivity|].
    intros H. apply Hx. intros Hin. apply H. apply elem_of_app. by left.
Qed.

(** X20: merging keeps the keys of [base] in their order and appends the
    keys that only [override] has, in the order [override] has them; so
    merging into an empty dictionary gives the keys of [override], and
    merging an empty dictionary changes nothing. *)
Theorem deep_merge_keys (base override : list (string * json)) :
  NoDup override.*1 ->
  (deep_merge base override).*1
    = base.*1 ++ filter (fun k => k ∉ base.*1) override.*1 /\
  (deep_merge [] override).*1 = override.*1 /\
  deep_merge base [] = base.
Proof.
  intros Hnd.
  assert (forall base,
            (deep_merge base override).*1
            = base.*1 ++ filter (fun k => k ∉ base.*1) override.*1) as Hkeys.
  { clear base. induction override as [|[key value] rest IH]; intros base.
    - simpl. by rewrite app_nil_r.
    - rewrite deep_merge_cons. simpl in Hnd. apply NoDup_cons in Hnd as [Hnotin Hnd].
      rewrite (IH Hnd). rewrite setitem_keys. simpl. rewrite filter_cons.
      destruct (decide (key ∈ base.*1)) as [Hin|Hin].
      + rewrite decide_False; [reflexivity | by intros H].
      + rewrite decide_True by exact Hin.
        rewrite <- app_assoc. simpl. f_equal. f_equal.
        by apply filter_new_keys. }
  split; [apply Hkeys|]. split; [|reflexivity].
  rewrite Hkeys. simpl.
  clear. induction (override.*1) as [|x l IH]; [reflexivity|].
  rewrite filter_cons, decide_True by apply not_elem_of_nil. by rewrite IH.
Qed.

Lemma deep_merge_keys_witness :
  NoDup [("b", JNull); ("a", JInt 2)].*1 /\
  (deep_merge [("a", JInt 1); ("c", JNull)] [("b", JNull); ("a", JInt 2)]).*1
    = ["a"; "c"; "b"].
Proof.
  assert (NoDup [("b", JNull); ("a", JInt 2)].*1) as Hnd.
  { simpl. apply NoDup_cons. split.
    - intros H. apply list_elem_of_singleton in H. discriminate.
    - apply NoDup_singleton. }
  split; [exact Hnd|].
  rewrite (proj1 (deep_merge_keys [("a", JInt 1); ("c", JNull)]
                    [("b", JNull); ("a", JInt 2)] Hnd)).
  reflexivity.
Defined.

(** ** [convert_to_ws] *)

Lemma chars_convert_to_ws (v : string) :
  chars (convert_to_ws v) = convert_to_ws_chars (chars v).
Proof. unfold convert_to_ws, chars. apply String.list_ascii_of_string_of_list_ascii. Qed.

Lemma replace_first_prefix (old new v : list Ascii.ascii) :
  old `prefix_of` v -> replace_first old new v = new ++ drop (length old) v.
Proof.
  intros H. destruct v; simpl; by rewrite bool_decide_eq_true_2.
Qed.

Lemma rstrip_cons_ne (c x : Ascii.ascii) (l : list Ascii.ascii) :
  x <> c -> rstrip c (x :: l) = x :: rstrip c l.
Proof.
  intros Hne. simpl. destruct (rstrip c l); [|reflexivity].
  by rewrite decide_False.
Qed.

Lemma rstrip_prefix (c : Ascii.ascii) (l : list Ascii.ascii) : rstrip c l `prefix_of` l.
Proof.
  induction l as [|x l IH]; simpl; [reflexivity|].
  destruct (rstrip c l) as [|y r] eqn:E.
  - destruct (decide (x = c)); [apply prefix_nil|].
    apply prefix_cons, prefix_nil.
  - by apply prefix_cons.
Qed.

Lemma rstrip_last (c : Ascii.ascii) (l : list Ascii.ascii) : last (rstrip c l) <> Some c.
Proof.
  induction l as [|x l IH]; simpl; [discriminate|].
  destruct (rstrip c l) as [|y r] eqn:E.
  - destruct (decide (x = c)); simpl; congruence.
  - exact IH.
Qed.

Lemma prefix_app_cases {A} (p u s : list A) :
  p `prefix_of` u ++ s ->
  p `prefix_of` u \/ exists p2, p = u ++ p2 /\ p2 `prefix_of` s.
Proof.
  revert p. induction u as [|x u IH]; intros p H.
  - right. by exists p.
  - destruct p as [|y p]; [left; apply prefix_nil|].
    simpl in H. pose proof (prefix_cons_inv_1 _ _ _ _ H) as ->.
    apply prefix_cons_inv_2 in H.
    destruct (IH p H) as [Hl | (p2 & -> & Hp2)].
    + left. by apply prefix_cons.
    + right. by exists p2.
Qed.

(** Appending the path to a stripped URL never produces an [http] scheme
    that was not there. *)
Lemma no_scheme_after_strip (v : list Ascii.ascii) :
  ~ chars "http://" `prefix_of` v ->
  ~ chars "https://" `prefix_of` v ->
  ~ chars "http://" `prefix_of` rstrip slash v ++ chars "/api/websocket" /\
  ~ chars "https://" `prefix_of` rstrip slash v ++ chars "/api/websocket".
Proof.
  intros H1 H2.
  pose proof (rstrip_prefix slash v) as Hpre.
  pose proof (rstrip_last slash v) as Hlast.
  set (u := rstrip slash v) in *. clearbody u.
  split; intros H; apply prefix_app_cases in H as [H | (p2 & Heq & Hp2)];
    try (first [ apply H1; etransitivity; [exact H | exact Hpre]
               | apply H2; etransitivity; [exact H | exact Hpre] ]).
  - do 8 (destruct u as [|? u]; simpl in Heq;
          [subst p2;
           first [ exfalso; apply Hlast; vm_compute; reflexivity
                 | pose proof (bool_decide_eq_true_2 _ Hp2) as Hb;
                   vm_compute in Hb; discriminate ]
          |first [ discriminate Heq
                 | injection Heq; intros Htl Ha; clear Heq; rename Htl into Heq;
                   subst ]]).
  - do 9 (destruct u as [|? u]; simpl in Heq;
          [subst p2;
           first [ exfalso; apply Hlast; vm_compute; reflexivity
                 | pose proof (bool_decide_eq_true_2 _ Hp2) as Hb;
                   vm_compute in Hb; discriminate ]
          |first [ discriminate Heq
                 | injection Heq; intros Htl Ha; clear Heq; rename Htl into Heq;
                   subst ]]).
Qed.

Lemma convert_chars_suffix (v : list Ascii.ascii) :
  chars "/api/websocket" `suffix_of` convert_to_ws_chars v.
Proof.
  unfold convert_to_ws_chars.
  match goal with |- context [bool_decide (_ `suffix_of` ?x)] => set (v1 := x) end.
  destruct (bool_decide (chars "/api/websocket" `suffix_of` v1)) eqn:E.
  - by apply bool_decide_eq_true_1 in E.
  - by apply suffix_app_r.
Qed.

Lemma convert_chars_no_http (v : list Ascii.ascii) :
  ~ chars "http://" `prefix_of` convert_to_ws_chars v /\
  ~ chars "https://" `prefix_of` convert_to_ws_chars v.
Proof.
  unfold convert_to_ws_chars.
  match goal with |- context [bool_decide (_ `suffix_of` ?x)] => set (v1 := x) end.
  assert (~ chars "http://" `prefix_of` v1 /\ ~ chars "https://" `prefix_of` v1)
    as [H1 H2].
  { subst v1.
    destruct (bool_decide (chars "http://" `prefix_of` v)) eqn:E1.
    - apply bool_decide_eq_true_1 in E1.
      rewrite (replace_first_prefix _ _ _ E1).
      split; intros H; simpl in H; apply prefix_cons_inv_1 in H; discriminate.
    - apply bool_decide_eq_false_1 in E1.
      destruct (bool_decide (chars "https://" `prefix_of` v)) eqn:E2.
      + apply bool_decide_eq_true_1 in E2.
        rewrite (replace_first_prefix _ _ _ E2).
        split; intros H; simpl in H; apply prefix_cons_inv_1 in H; discriminate.
      + apply bool_decide_eq_false_1 in E2. by split. }
  destruct (bool_decide (chars "/api/websocket" `suffix_of` v1)); [by split|].
  by apply no_scheme_after_strip.
Qed.

Lemma convert_chars_fixed (v : list Ascii.ascii) :
  ~ chars "http://" `prefix_of` v ->
  ~ chars "https://" `prefix_of` v ->
  chars "/api/websocket" `suffix_of` v ->
  convert_to_ws_chars v = v.
Proof.
  intros H1 H2 H3. unfold convert_to_ws_chars.
  rewrite (bool_decide_eq_false_2 _ H1), (bool_decide_eq_false_2 _ H2).
  by rewrite (bool_decide_eq_true_2 _ H3).
Qed.

Lemma convert_chars_scheme (v : list Ascii.ascii) :
  (chars "http://" `prefix_of` v -> chars "ws:" `prefix_of` convert_to_ws_chars v) /\
  (chars "https://" `prefix_of` v -> chars "wss:" `prefix_of` convert_to_ws_chars v).
Proof.
  split; intros Hpre; unfold convert_to_ws_chars.
  - rewrite (bool_decide_eq_true_2 _ Hpre), (replace_first_prefix _ _ _ Hpre).
    set (rest := drop _ v). cbn -[rstrip bool_decide]. case_bool_decide.
    + do 3 apply prefix_cons. apply prefix_nil.
    + rewrite !rstrip_cons_ne by discriminate. cbn -[rstrip].
      do 3 apply prefix_cons. apply prefix_nil.
  - destruct (bool_decide (chars "http://" `prefix_of` v)) eqn:E.
    + apply bool_decide_eq_true_1 in E. exfalso.
      destruct Hpre as [k1 ->]. destruct E as [k2 E]. simpl in E. discriminate.
    + rewrite (bool_decide_eq_true_2 _ Hpre), (replace_first_prefix _ _ _ Hpre).
      clear E. set (rest := drop _ v). cbn -[rstrip bool_decide]. case_bool_decide.
      * do 4 apply prefix_cons. apply prefix_nil.
      * rewrite !rstrip_cons_ne by discriminate. cbn -[rstrip].
        do 4 apply prefix_cons. apply prefix_nil.
Qed.

Lemma convert_to_ws_result_aux (v : string) :
  chars "/api/websocket" `suffix_of` chars (convert_to_ws v) /\
  ~ chars "http://" `prefix_of` chars (convert_to_ws v) /\
  ~ chars "https://" `prefix_of` chars (convert_to_ws v).
Proof.
  rewrite chars_convert_to_ws.
  destruct (convert_chars_no_http (chars v)) as [H1 H2].
  split; [apply convert_chars_suffix|]. auto.
Qed.

(** X21: whatever URL it is given, [convert_to_ws] returns one that ends
    with [/api/websocket] and does not begin with [http://] or [https://];
    a URL given with [http://] comes back beginning with [ws:], one given
    with [https://] beginning with [wss:]. *)
Theorem convert_to_ws_result (v : string) :
  chars "/api/websocket" `suffix_of` chars (convert_to_ws v) /\
  ~ chars "http://" `prefix_of` chars (convert_to_ws v) /\
  ~ chars "https://" `prefix_of` chars (convert_to_ws v) /\
  (chars "http://" `prefix_of` chars v ->
   chars "ws:" `prefix_of` chars (convert_to_ws v)) /\
  (chars "https://" `prefix_of` chars v ->
   chars "wss:" `prefix_of` chars (convert_to_ws v)).
Proof.
  rewrite chars_convert_to_ws.
  destruct (convert_chars_no_http (chars v)) as [H1 H2].
  destruct (convert_chars_scheme (chars v)) as [H3 H4].
  split; [apply convert_chars_suffix|]. auto.
Qed.

(** X22: converting twice is the same as converting once, and the URLs that
    [convert_to_ws] leaves as they are, are exactly those that end with
    [/api/websocket] and begin with neither [http://] nor [https://]. *)
Theorem convert_to_ws_idempotent (v : string) :
  convert_to_ws (convert_to_ws v) = convert_to_ws v /\
  (convert_to_ws v = v <->
   ~ chars "http://" `prefix_of` chars v /\
   ~ chars "https://" `prefix_of` chars v /\
   chars "/api/websocket" `suffix_of` chars v).
Proof.
  assert (forall w,
            ~ chars "http://" `prefix_of` chars w ->
            ~ chars "https://" `prefix_of` chars w ->
            chars "/api/websocket" `suffix_of` chars w ->
            convert_to_ws w = w) as Hfix.
  { intros w H1 H2 H3. unfold convert_to_ws.
    rewrite (convert_chars_fixed _ H1 H2 H3).
    apply String.string_of_list_ascii_of_string. }
  destruct (convert_to_ws_result_aux v) as (Hs & H1 & H2).
  split; [by apply Hfix|]. split.
  - intros Heq. rewrite Heq in Hs, H1, H2. auto.
  - intros (G1 & G2 & G3). by apply Hfix.
Qed.

Lemma chars_app (u w : string) : chars (u ++ w) = chars u ++ chars w.
Proof. unfold chars. induction u as [|c u IH]; simpl; [reflexivity|]. by rewrite IH. Qed.

Lemma rstrip_keeps (c : Ascii.ascii) (l : list Ascii.ascii) :
  last l <> Some c -> rstrip c l = l.
Proof.
  induction l as [|x l IH]; intros Hl; [reflexivity|].
  simpl. destruct l as [|y l].
  - simpl in *. rewrite decide_False; [reflexivity | congruence].
  - rewrite IH by exact Hl. reflexivity.
Qed.

Lemma rstrip_snoc (c : Ascii.ascii) (l : list Ascii.ascii) :
  rstrip c (l ++ [c]) = rstrip c l.
Proof.
  induction l as [|x l IH]; simpl.
  - by rewrite decide_True.
  - by rewrite IH.
Qed.

(** X23: a URL without [http] scheme that ends in one slash has the slash
    replaced by [/api/websocket], whatever came before the slash.  So a URL
    that already ends with the path followed by a slash comes back with the
    path twice. *)
Theorem convert_to_ws_trailing_slash (u : string) :
  ~ chars "http://" `prefix_of` chars (u ++ "/") ->
  ~ chars "https://" `prefix_of` chars (u ++ "/") ->
  last (chars u) <> Some slash ->
  convert_to_ws (u ++ "/") = (u ++ "/api/websocket")%string.
Proof.
  intros H1 H2 Hlast. unfold convert_to_ws, convert_to_ws_chars.
  rewrite (bool_decide_eq_false_2 _ H1), (bool_decide_eq_false_2 _ H2).
  rewrite chars_app.
  change (chars "/") with [slash].
  rewrite bool_decide_eq_false_2.
  - rewrite rstrip_snoc, (rstrip_keeps _ _ Hlast), <- chars_app.
    apply String.string_of_list_ascii_of_string.
  - intros [k Hk].
    assert (last (chars u ++ [slash]) = last (k ++ chars "/api/websocket"))
      as Hl by (by rewrite Hk).
    rewrite last_snoc in Hl.
    change (chars "/api/websocket")
      with (chars "/api/websocke" ++ [Ascii.ascii_of_nat 116]) in Hl.
    rewrite app_assoc, last_snoc in Hl. discriminate.
Qed.

Lemma convert_to_ws_trailing_slash_witness :
  last (chars "ws://h:8123/api/websocket") <> Some slash /\
  convert_to_ws "ws://h:8123/api/websocket/"
    = "ws://h:8123/api/websocket/api/websocket".
Proof.
  assert (last (chars "ws://h:8123/api/websocket") <> Some slash) as Hl
    by (vm_compute; discriminate).
  split; [exact Hl|].
  apply (convert_to_ws_trailing_slash "ws://h:8123/api/websocket"); [| |exact Hl].
  - intros H. apply (bool_decide_eq_true_2 _) in H. vm_compute in H. discriminate.
  - intros H. apply (bool_decide_eq_true_2 _) in H. vm_compute in H. discriminate.
Defined.

(** The usual inputs. *)
Example convert_to_ws_examples :
  convert_to_ws "http://homeassistant.local:8123"
    = "ws://homeassistant.local:8123/api/websocket" /\
  convert_to_ws "https://example.org/" = "wss://example.org/api/websocket" /\
  convert_to_ws "ws://homeassistant.local:8123/api/websocket"
    = "ws://homeassistant.local:8123/api/websocket".
Proof. vm_compute. repeat split; reflexivity. Qed.
